(** * PricePal: the per-user capture state machine of [src/index.ts]

    The application keeps process-wide maps keyed by user id
    ([isStreamingPhotos], [nextPhotoTime], [photos], [sessions], ...) and
    mutates them from three kinds of callbacks that all run on one
    JavaScript event loop: the session callbacks [onSession] / [onStop],
    the button handler registered in [onSession], and the one-second
    [setInterval] callback registered in [onSession].

    Every [await] in those callbacks is a suspension point.  The model
    below runs each callback up to its next [await] as one atomic step,
    parks the rest of the callback as a [Task] in [pending], and resumes
    it when the environment settles the awaited call ([EvSettle]).
    [Date.now()] is an input of the step that reads it.

    The environment is free: callbacks may be invoked and calls may
    settle in any order, so what is proved for all states or all runs
    covers every interleaving.  Calls that are not awaited and whose
    result is not read ([showTextWall], [console.log]) are taken not to
    throw, and values have the types the SDK declares. *)

From Stdlib Require Import ZArith.
From stdpp Require Import gmap strings list fin_maps.

Local Open Scope Z_scope.

(** ** Data *)

(** [PhotoData] of the SDK, as far as the application reads it.
    [timestamp] is the [Date] as epoch milliseconds ([getTime()]). *)
Module PhotoData.
Record t := mk {
  requestId : string;
  buffer : list Byte.byte;
  timestamp : Z;
  mimeType : string;
  filename : string;
  size : Z
}.
End PhotoData.

(** [interface StoredPhoto], plus the [geminiAnalysis] property that
    [analyzePhotoWithGemini] adds with [(photo as any).geminiAnalysis = ...];
    [None] is the property being absent. *)
Module StoredPhoto.
Record t := mk {
  requestId : string;
  buffer : list Byte.byte;
  timestamp : Z;
  userId : string;
  mimeType : string;
  filename : string;
  size : Z;
  geminiAnalysis : option string
}.

Definition set_geminiAnalysis (a : string) (p : t) : t :=
  mk (requestId p) (buffer p) (timestamp p) (userId p) (mimeType p)
     (filename p) (size p) (Some a).

(** Everything [interface StoredPhoto] declares, i.e. all but the analysis. *)
Definition data (p : t) : string * list Byte.byte * Z * string * string * string * Z :=
  (requestId p, buffer p, timestamp p, userId p, mimeType p, filename p, size p).
End StoredPhoto.

(** The [button] argument of the [onButtonPress] callback. *)
Record ButtonPress := { buttonId : string; pressType : string }.

(** An [AppSession] is an opaque handle of the SDK. *)
Abbreviation Session := nat.

(** A [StoredPhoto] object is referred to by its address in [heap]:
    the same object is reachable from [photos] and from the closure of the
    analysis that will write its result. *)
Abbreviation Ref := nat.

(** What an awaited collaborator call resolves with. [VContent] is the
    result of [model.generateContent]: [inl text] when [response.text()]
    will return [text], [inr e] when it will throw [e]. *)
Inductive Value :=
| VPhoto (photo : PhotoData.t)
| VContent (text : string + string)
| VOther.

Inductive Settled :=
| Resolved (v : Value)
| Rejected (error : string).

(** The rest of a callback parked at an [await]; the comment gives the
    line of the [await] in [src/index.ts]. [GeminiSpeak] stands for the
    whole of [speakAnalysis] (lines 299-494): it reads [sessions] and
    talks to the speech services, and writes none of the fields of
    [State]. *)
Inductive Task :=
| ButtonCamera (session : Session) (userId : string)                       (* 89 *)
| ButtonShutter (session : Session) (userId : string) (photo : PhotoData.t) (* 100 *)
| StreamCamera (session : Session) (userId : string)                       (* 128 *)
| StreamShutter (session : Session) (userId : string) (photo : PhotoData.t) (* 139 *)
| GeminiGenerate (photo : Ref) (userId : string)                           (* 253 *)
| GeminiResponse (photo : Ref) (userId : string) (text : string + string)  (* 254 *)
| GeminiSpeak (userId : string).                                           (* 264 *)

(** Observable actions, in program order: writes to the maps and to photo
    objects, calls to collaborators (with the id of the task that awaits
    them), and [console.error] lines. *)
Inductive Action :=
| ASessionsSet (userId : string) (session : Session)
| ASessionsDelete (userId : string)
| AIsStreamingSet (userId : string) (b : bool)
| ANextPhotoTimeSet (userId : string) (t : Z)
| ANextPhotoTimeDelete (userId : string)
| APhotosSet (userId : string) (userPhotos : list Ref)
| ALatestPhotoTimestampSet (userId : string) (t : Z)
| AGeminiAnalysisSet (photo : Ref) (a : string)
| AShowTextWall (session : Session) (text : string)
| ARequestPhoto (session : Session) (tid : nat)
| ASpeak (session : Session) (text : string) (tid : nat)
| AGenerateContent (photo : Ref) (tid : nat)
| AAwaitResponse (photo : Ref) (tid : nat)
| ASpeakAnalysis (analysis userId : string) (tid : nat)
| AConsoleError (message error : string).

(** The fields of [ExampleMentraOSApp] that the callbacks touch
    ([pendingAudioUrls] is never read or written), the photo objects, the
    parked continuations and the action trace. *)
Record State := mkState {
  photos : gmap string (list Ref);
  latestPhotoTimestamp : gmap string Z;
  isStreamingPhotos : gmap string bool;
  nextPhotoTime : gmap string Z;
  sessions : gmap string Session;
  heap : list StoredPhoto.t;
  pending : gmap nat Task;
  nextTask : nat;
  trace : list Action
}.

Definition init : State :=
  mkState ∅ ∅ ∅ ∅ ∅ [] ∅ 0%nat [].

(** ** A state monad for callback bodies *)

Definition M (A : Type) : Type := State -> A * State.

Definition ret {A} (a : A) : M A := fun s => (a, s).

Definition bind {A B} (m : M A) (k : A -> M B) : M B :=
  fun s => let (a, s') := m s in k a s'.

Notation "'let*' x ':=' m 'in' k" := (bind m (fun x => k))
  (at level 10, x name, m at level 100, k at level 200).
Notation "m ;; k" := (bind m (fun _ => k))
  (at level 100, k at level 200, right associativity).

Definition exec (m : M unit) (s : State) : State := snd (m s).

Definition emit (a : Action) : M unit := fun s =>
  (tt, mkState (photos s) (latestPhotoTimestamp s) (isStreamingPhotos s)
         (nextPhotoTime s) (sessions s) (heap s) (pending s) (nextTask s)
         (trace s ++ [a])).

(** *** Map primitives: each write is recorded in the trace *)

Definition sessions_set (u : string) (x : Session) : M unit := fun s =>
  emit (ASessionsSet u x)
    (mkState (photos s) (latestPhotoTimestamp s) (isStreamingPhotos s)
       (nextPhotoTime s) (<[u := x]> (sessions s)) (heap s) (pending s)
       (nextTask s) (trace s)).

Definition sessions_delete (u : string) : M unit := fun s =>
  emit (ASessionsDelete u)
    (mkState (photos s) (latestPhotoTimestamp s) (isStreamingPhotos s)
       (nextPhotoTime s) (delete u (sessions s)) (heap s) (pending s)
       (nextTask s) (trace s)).

Definition isStreamingPhotos_get (u : string) : M (option bool) := fun s =>
  (isStreamingPhotos s !! u, s).

Definition isStreamingPhotos_set (u : string) (b : bool) : M unit := fun s =>
  emit (AIsStreamingSet u b)
    (mkState (photos s) (latestPhotoTimestamp s) (<[u := b]> (isStreamingPhotos s))
       (nextPhotoTime s) (sessions s) (heap s) (pending s)
       (nextTask s) (trace s)).

Definition nextPhotoTime_get (u : string) : M (option Z) := fun s =>
  (nextPhotoTime s !! u, s).

Definition nextPhotoTime_set (u : string) (t : Z) : M unit := fun s =>
  emit (ANextPhotoTimeSet u t)
    (mkState (photos s) (latestPhotoTimestamp s) (isStreamingPhotos s)
       (<[u := t]> (nextPhotoTime s)) (sessions s) (heap s) (pending s)
       (nextTask s) (trace s)).

Definition nextPhotoTime_delete (u : string) : M unit := fun s =>
  emit (ANextPhotoTimeDelete u)
    (mkState (photos s) (latestPhotoTimestamp s) (isStreamingPhotos s)
       (delete u (nextPhotoTime s)) (sessions s) (heap s) (pending s)
       (nextTask s) (trace s)).

Definition photos_get (u : string) : M (option (list Ref)) := fun s =>
  (photos s !! u, s).

Definition photos_set (u : string) (l : list Ref) : M unit := fun s =>
  emit (APhotosSet u l)
    (mkState (<[u := l]> (photos s)) (latestPhotoTimestamp s) (isStreamingPhotos s)
       (nextPhotoTime s) (sessions s) (heap s) (pending s)
       (nextTask s) (trace s)).

Definition latestPhotoTimestamp_set (u : string) (t : Z) : M unit := fun s =>
  emit (ALatestPhotoTimestampSet u t)
    (mkState (photos s) (<[u := t]> (latestPhotoTimestamp s)) (isStreamingPhotos s)
       (nextPhotoTime s) (sessions s) (heap s) (pending s)
       (nextTask s) (trace s)).

(** Object creation: the new [StoredPhoto] gets the next free address. *)
Definition new_photo (p : StoredPhoto.t) : M Ref := fun s =>
  (length (heap s),
   mkState (photos s) (latestPhotoTimestamp s) (isStreamingPhotos s)
     (nextPhotoTime s) (sessions s) (heap s ++ [p]) (pending s)
     (nextTask s) (trace s)).

(** [(photo as any).geminiAnalysis = a] on the object at [l]. *)
Definition geminiAnalysis_set (l : Ref) (a : string) : M unit := fun s =>
  emit (AGeminiAnalysisSet l a)
    (mkState (photos s) (latestPhotoTimestamp s) (isStreamingPhotos s)
       (nextPhotoTime s) (sessions s)
       (alter (StoredPhoto.set_geminiAnalysis a) l (heap s)) (pending s)
       (nextTask s) (trace s)).

(** [await call]: the call is issued (recorded with the id of the task
    that waits for it) and the continuation [k] is parked. *)
Definition await (call : nat -> Action) (k : Task) : M unit := fun s =>
  emit (call (nextTask s))
    (mkState (photos s) (latestPhotoTimestamp s) (isStreamingPhotos s)
       (nextPhotoTime s) (sessions s) (heap s)
       (<[nextTask s := k]> (pending s)) (S (nextTask s)) (trace s)).

(** The settled task leaves [pending] before its continuation runs. *)
Definition unpark (tid : nat) : M unit := fun s =>
  (tt, mkState (photos s) (latestPhotoTimestamp s) (isStreamingPhotos s)
         (nextPhotoTime s) (sessions s) (heap s)
         (delete tid (pending s)) (nextTask s) (trace s)).

(** JavaScript truthiness of [Map<string, boolean>.get]: [undefined] is falsy. *)
Definition truthy (b : option bool) : bool := default false b.

(** ** The callbacks of [src/index.ts] *)

(** Collaborator calls. [showTextWall] is not awaited and its result is
    not read. *)
Definition showTextWall (session : Session) (text : string) : M unit :=
  emit (AShowTextWall session text).

Definition requestPhoto (session : Session) (k : Task) : M unit :=
  await (ARequestPhoto session) k.

Definition speak (session : Session) (text : string) (k : Task) : M unit :=
  await (ASpeak session text) k.

Definition console_error (message error : string) : M unit :=
  emit (AConsoleError message error).

(** [onSession], lines 58-68; the button handler and the interval it
    registers are [onButtonPress] and [onInterval] below. *)
Definition onSession (session : Session) (sessionId userId : string) (now : Z) : M unit :=
  sessions_set userId session ;;
  isStreamingPhotos_set userId false ;;
  nextPhotoTime_set userId now.

(** [onStop], lines 157-163. *)
Definition onStop (sessionId userId reason : string) : M unit :=
  isStreamingPhotos_set userId false ;;
  nextPhotoTime_delete userId ;;
  sessions_delete userId.

(** The handler given to [session.events.onButtonPress], lines 73-111,
    up to its first [await]. *)
Definition onButtonPress (session : Session) (userId : string) (button : ButtonPress) : M unit :=
  if bool_decide (pressType button = "long") then
    let* currentStreaming := isStreamingPhotos_get userId in
    isStreamingPhotos_set userId (negb (truthy currentStreaming))
  else
    showTextWall session "Button pressed, about to take photo" ;;
    requestPhoto session (ButtonCamera session userId).

(** The fallback delay of line 123, in milliseconds. *)
Definition coolDownInterval : Z := 30000.

(** The [setInterval] callback, lines 114-154, up to its first [await];
    [now] is what [Date.now()] returns on line 117. *)
Definition onInterval (session : Session) (userId : string) (now : Z) : M unit :=
  let* isStreaming := isStreamingPhotos_get userId in
  let* nextPhotoTime := nextPhotoTime_get userId in
  let nextPhotoTime := default 0 nextPhotoTime in
  let currentTime := now in
  if truthy isStreaming && bool_decide (currentTime > nextPhotoTime) then
    nextPhotoTime_set userId (currentTime + coolDownInterval) ;;
    requestPhoto session (StreamCamera session userId)
  else ret tt.

(** [analyzePhotoWithGemini], lines 209-271, up to [await
    model.generateContent]; building the model handle, the base64 text and
    the prompt touch no state. *)
Definition analyzePhotoWithGemini (photo : Ref) (userId : string) : M unit :=
  await (AGenerateContent photo) (GeminiGenerate photo userId).

(** The [catch] of [analyzePhotoWithGemini], lines 266-270. *)
Definition analyzePhoto_catch (photo : Ref) (error : string) : M unit :=
  console_error "Error analyzing photo with Gemini: " error ;;
  geminiAnalysis_set photo ("Error analyzing photo: " ++ error).

(** [cachePhoto], lines 168-204. It contains no [await]: it runs to the
    first [await] of [analyzePhotoWithGemini] in one go. *)
Definition cachePhoto (photo : PhotoData.t) (userId : string) : M unit :=
  let cachedPhoto :=
    StoredPhoto.mk (PhotoData.requestId photo) (PhotoData.buffer photo)
      (PhotoData.timestamp photo) userId (PhotoData.mimeType photo)
      (PhotoData.filename photo) (PhotoData.size photo) None in
  let* cachedRef := new_photo cachedPhoto in
  let* stored := photos_get userId in
  let userPhotos := default [] stored ++ [cachedRef] in
  photos_set userId userPhotos ;;
  latestPhotoTimestamp_set userId (StoredPhoto.timestamp cachedPhoto) ;;
  analyzePhotoWithGemini cachedRef userId.

(** The inner [try { await session.audio.speak(..) } catch] of both
    capture paths: a rejection is logged, nothing else. *)
Definition shutter_settled (message : string) (r : Settled) : M unit :=
  match r with
  | Resolved _ => ret tt
  | Rejected error => console_error message error
  end.

(** What a parked callback does when its awaited call settles, up to its
    next [await]. [None]: the call cannot settle that way
    ([requestPhoto] resolves with a photo, [generateContent] with a
    result; [speakAnalysis] wraps its whole body in a [try]/[catch] that
    only logs, so its promise never rejects). *)
Definition resume (k : Task) (r : Settled) (now : Z) : option (M unit) :=
  match k, r with
  | ButtonCamera session userId, Resolved (VPhoto photo) =>
      Some (speak session "Photo taken" (ButtonShutter session userId photo))
  | ButtonCamera session userId, Rejected error =>
      Some (console_error ("[CAMERA] Error taking photo for user " ++ userId ++ ":") error)
  | ButtonShutter session userId photo, _ =>
      Some (shutter_settled
              ("[AUDIO] Error playing camera confirmation sound for user " ++ userId ++ ":") r ;;
            cachePhoto photo userId)
  | StreamCamera session userId, Resolved (VPhoto photo) =>
      Some (speak session "Photo taken" (StreamShutter session userId photo))
  | StreamCamera session userId, Rejected error =>
      Some (console_error ("[STREAM] Error auto-taking photo for user " ++ userId ++ ":") error)
  | StreamShutter session userId photo, _ =>
      Some (shutter_settled
              ("[AUDIO] Error playing camera confirmation sound for streaming photo for user "
                 ++ userId ++ ":") r ;;
            nextPhotoTime_set userId now ;;
            cachePhoto photo userId)
  | GeminiGenerate photo userId, Resolved (VContent text) =>
      Some (await (AAwaitResponse photo) (GeminiResponse photo userId text))
  | GeminiGenerate photo userId, Rejected error =>
      Some (analyzePhoto_catch photo error)
  | GeminiResponse photo userId (inl analysis), Resolved _ =>
      Some (geminiAnalysis_set photo analysis ;;
            await (ASpeakAnalysis analysis userId) (GeminiSpeak userId))
  | GeminiResponse photo userId (inr error), Resolved _ =>
      Some (analyzePhoto_catch photo error)
  | GeminiResponse photo userId _, Rejected error =>
      Some (analyzePhoto_catch photo error)
  | GeminiSpeak userId, Resolved _ => Some (ret tt)
  | _, _ => None
  end.

(** ** The event loop *)

Inductive Event :=
| EvSession (session : Session) (sessionId userId : string) (now : Z)
| EvStop (sessionId userId reason : string)
| EvButton (session : Session) (userId : string) (button : ButtonPress)
| EvTick (session : Session) (userId : string) (now : Z)
| EvSettle (tid : nat) (r : Settled) (now : Z).

Definition step (e : Event) (s : State) : option State :=
  match e with
  | EvSession session sessionId userId now =>
      Some (exec (onSession session sessionId userId now) s)
  | EvStop sessionId userId reason =>
      Some (exec (onStop sessionId userId reason) s)
  | EvButton session userId button =>
      Some (exec (onButtonPress session userId button) s)
  | EvTick session userId now =>
      Some (exec (onInterval session userId now) s)
  | EvSettle tid r now =>
      match pending s !! tid with
      | Some k =>
          match resume k r now with
          | Some m => Some (exec (unpark tid ;; m) s)
          | None => None
          end
      | None => None
      end
  end.

Fixpoint run (evs : list Event) (s : State) : option State :=
  match evs with
  | [] => Some s
  | e :: evs' =>
      match step e s with
      | Some s' => run evs' s'
      | None => None
      end
  end.

Definition reachable (s : State) : Prop := exists evs, run evs init = Some s.

(** The actions a step added to the trace. *)
Definition emitted (s s' : State) : list Action :=
  drop (length (trace s)) (trace s').

Definition is_capture (a : Action) : bool :=
  match a with ARequestPhoto _ _ => true | _ => false end.

Definition captures (l : list Action) : nat := length (filter is_capture l).

Definition userPhotos (s : State) (u : string) : list Ref :=
  default [] (photos s !! u).

(** The guard of the interval callback, line 119. *)
Definition tick_due (s : State) (userId : string) (now : Z) : Prop :=
  isStreamingPhotos s !! userId = Some true /\
  now > default 0 (nextPhotoTime s !! userId).


(** Events that write a user's [isStreamingPhotos] entry. *)
Definition long_press_of (userId : string) (e : Event) : bool :=
  match e with
  | EvButton _ u button =>
      bool_decide (u = userId) && bool_decide (pressType button = "long")
  | _ => false
  end.

Definition session_boundary_of (userId : string) (e : Event) : bool :=
  match e with
  | EvSession _ _ u _ | EvStop _ u _ => bool_decide (u = userId)
  | _ => false
  end.

(** The segments of the short-press path: the handler up to
    [requestPhoto], its continuations after the capture and after the
    confirmation sound, and the analysis that [cachePhoto] dispatches. *)
Definition short_press_path (s : State) (e : Event) : bool :=
  match e with
  | EvButton _ _ button => negb (bool_decide (pressType button = "long"))
  | EvSettle tid _ _ =>
      match pending s !! tid with
      | Some (ButtonCamera _ _) | Some (ButtonShutter _ _ _)
      | Some (GeminiGenerate _ _) | Some (GeminiResponse _ _ _)
      | Some (GeminiSpeak _) => true
      | _ => false
      end
  | _ => false
  end.

(** The user whose tick-triggered capture a parked task belongs to. *)
Definition stream_user (k : Task) : option string :=
  match k with
  | StreamCamera _ u | StreamShutter _ u _ => Some u
  | _ => None
  end.

(** Events that do not touch the fallback [limit] that the capture call
    awaited by task [tid0] left in [nextPhotoTime] for [userId]: anything
    but a session start or stop of that user, a tick of that user later
    than [limit], and the settling of [tid0] itself. *)
Definition leaves_fallback (userId : string) (limit : Z) (tid0 : nat) (e : Event) : bool :=
  match e with
  | EvSession _ _ u _ | EvStop _ u _ => negb (bool_decide (u = userId))
  | EvTick _ u now => negb (bool_decide (u = userId)) || bool_decide (now <= limit)
  | EvSettle tid _ _ => negb (bool_decide (tid = tid0))
  | EvButton _ _ _ => true
  end.


(** The photo object whose analysis a parked task will write. *)
Definition task_photo (k : Task) : option Ref :=
  match k with
  | GeminiGenerate l _ | GeminiResponse l _ _ => Some l
  | _ => None
  end.

(** What the settling of an analysis task stores in [geminiAnalysis]:
    the text on success (line 260), the error string from the [catch]
    (line 269); nothing while the analysis goes on. *)
Definition analysis_outcome (k : Task) (r : Settled) : option string :=
  match k, r with
  | GeminiGenerate _ _, Rejected error => Some ("Error analyzing photo: " +:+ error)
  | GeminiResponse _ _ (inl analysis), Resolved _ => Some analysis
  | GeminiResponse _ _ (inr error), Resolved _ => Some ("Error analyzing photo: " +:+ error)
  | GeminiResponse _ _ _, Rejected error => Some ("Error analyzing photo: " +:+ error)
  | _, _ => None
  end.

(** Every analysis in flight refers to a photo object without analysis,
    and no two of them to the same object. *)
Definition analysis_inv (s : State) : Prop :=
  (forall tid k l, pending s !! tid = Some k -> task_photo k = Some l ->
     exists p, heap s !! l = Some p /\ StoredPhoto.geminiAnalysis p = None) /\
  (forall t1 t2 k1 k2 l,
     pending s !! t1 = Some k1 -> pending s !! t2 = Some k2 ->
     task_photo k1 = Some l -> task_photo k2 = Some l -> t1 = t2).

(** ** The earlier revision of the file ([src/unnamed/part_000])

    It has the same maps except [sessions], plays no confirmation sound
    after a capture and does not speak the analysis. The button handler,
    the interval callback up to [requestPhoto], and [cachePhoto] read the
    same as above; the callbacks that differ are given again. *)
Module Part000.

Definition onSession (session : Session) (sessionId userId : string) (now : Z) : M unit :=
  isStreamingPhotos_set userId false ;;
  nextPhotoTime_set userId now.

Definition onStop (sessionId userId reason : string) : M unit :=
  isStreamingPhotos_set userId false ;;
  nextPhotoTime_delete userId.

Definition resume (k : Task) (r : Settled) (now : Z) : option (M unit) :=
  match k, r with
  | ButtonCamera session userId, Resolved (VPhoto photo) =>
      Some (cachePhoto photo userId)
  | ButtonCamera session userId, Rejected error =>
      Some (console_error ("[CAMERA] Error taking photo for user " ++ userId ++ ":") error)
  | StreamCamera session userId, Resolved (VPhoto photo) =>
      Some (nextPhotoTime_set userId now ;;
            cachePhoto photo userId)
  | StreamCamera session userId, Rejected error =>
      Some (console_error ("[STREAM] Error auto-taking photo for user " ++ userId ++ ":") error)
  | GeminiGenerate photo userId, Resolved (VContent text) =>
      Some (await (AAwaitResponse photo) (GeminiResponse photo userId text))
  | GeminiGenerate photo userId, Rejected error =>
      Some (analyzePhoto_catch photo error)
  | GeminiResponse photo userId (inl analysis), Resolved _ =>
      Some (geminiAnalysis_set photo analysis)
  | GeminiResponse photo userId (inr error), Resolved _ =>
      Some (analyzePhoto_catch photo error)
  | GeminiResponse photo userId _, Rejected error =>
      Some (analyzePhoto_catch photo error)
  | _, _ => None
  end.

Definition step (e : Event) (s : State) : option State :=
  match e with
  | EvSession session sessionId userId now =>
      Some (exec (onSession session sessionId userId now) s)
  | EvStop sessionId userId reason =>
      Some (exec (onStop sessionId userId reason) s)
  | EvButton session userId button =>
      Some (exec (onButtonPress session userId button) s)
  | EvTick session userId now =>
      Some (exec (onInterval session userId now) s)
  | EvSettle tid r now =>
      match pending s !! tid with
      | Some k =>
          match resume k r now with
          | Some m => Some (exec (unpark tid ;; m) s)
          | None => None
          end
      | None => None
      end
  end.

End Part000.

(** ** Sample runs *)

(** The state after a run from the initial state. *)
Definition after (evs : list Event) : State := default init (run evs init).

Definition long_press : ButtonPress := {| buttonId := "main"; pressType := "long" |}.

Definition short_press : ButtonPress := {| buttonId := "main"; pressType := "short" |}.

Definition sample_photo : PhotoData.t :=
  PhotoData.mk "req-1" [] 2 "image/jpeg" "photo.jpg" 0.

(** Alice starts a session at time 0 and switches streaming on. *)
Definition arming : list Event :=
  [EvSession 7%nat "s1" "alice" 0; EvButton 7%nat "alice" long_press].

Definition armed : State := after arming.

(** The tick at time 1 fires: capture call 0 is in flight with the
    fallback 30001. *)
Definition capturing : State := after (arming ++ [EvTick 7%nat "alice" 1]).

(** That capture resolves at time 2: the confirmation sound (call 1) is
    in flight. *)
Definition confirming : State :=
  after (arming ++ [EvTick 7%nat "alice" 1;
                    EvSettle 0%nat (Resolved (VPhoto sample_photo)) 2]).

(** The sound has been played at time 5. *)
Definition confirmed : State :=
  after (arming ++ [EvTick 7%nat "alice" 1;
                    EvSettle 0%nat (Resolved (VPhoto sample_photo)) 2;
                    EvSettle 1%nat (Resolved VOther) 5]).

(** Instead, the capture call hangs and the tick at time 30002 fires too. *)
Definition overlapping : State :=
  after (arming ++ [EvTick 7%nat "alice" 1; EvTick 7%nat "alice" 30002]).

(** Alice stops the session while streaming is on. *)
Definition stopped : State := after (arming ++ [EvStop "s1" "alice" "user"]).

(** A short press: photo taken, sound played, photo cached, and the
    model's answer has arrived (call 3 awaits [result.response]). *)
Definition snapshot : list Event :=
  [EvSession 7%nat "s1" "alice" 0;
   EvButton 7%nat "alice" short_press;
   EvSettle 0%nat (Resolved (VPhoto sample_photo)) 2;
   EvSettle 1%nat (Resolved VOther) 3;
   EvSettle 2%nat (Resolved (VContent (inl "Buy it."))) 4].

Definition analysing : State := after snapshot.

(** The analysis text is stored (speech, call 4, in flight) ... *)
Definition analysed : State :=
  after (snapshot ++ [EvSettle 3%nat (Resolved VOther) 5]).

(** ... and the speech is over. *)
Definition spoken : State :=
  after (snapshot ++ [EvSettle 3%nat (Resolved VOther) 5;
                      EvSettle 4%nat (Resolved VOther) 9]).

(** ** The photo store as the webview routes see it *)

(** The [StoredPhoto] objects of a JavaScript array of references. A
    reference held in [photos] always points to an object (proved
    below), so nothing is dropped here. *)
Definition objects (h : list StoredPhoto.t) (refs : list Ref) : list StoredPhoto.t :=
  omap (fun l => h !! l) refs.

(** [this.photos.get(userId) || []] with the objects in place. *)
Definition stored (s : State) (u : string) : list StoredPhoto.t :=
  objects (heap s) (userPhotos s u).

(** JavaScript truthiness of a [string | undefined]: [undefined] and the
    empty string are falsy. *)
Definition js_truthy (a : option string) : bool :=
  match a with
  | Some (String _ _) => true
  | _ => false
  end.

Module PhotoSummary.
Record t := mk {
  requestId : string;
  timestamp : Z;
  mimeType : string;
  hasAnalysis : bool
}.
End PhotoSummary.

(** What a route sends: [res.json(..)] with one of the shapes used in
    lines 566-715, or [res.send(photo.buffer)] with its two headers. *)
Inductive Body :=
| JError (error : string)
| JLatestPhoto (requestId : string) (timestamp : Z) (hasPhoto : bool)
| JAnalysis (analysis : string)
| JPhotos (photos : list PhotoSummary.t)
| RawPhoto (contentType cacheControl : string) (buffer : list Byte.byte).

Record Response := { status : nat; body : Body }.

Definition json (status : nat) (b : Body) : Response :=
  {| status := status; body := b |}.

(** [GET /api/latest-photo], lines 567-591. [authUserId] is
    [(req as AuthenticatedRequest).authUserId]. *)
Definition api_latest_photo (s : State) (authUserId : option string) : Response :=
  if negb (js_truthy authUserId) then json 401 (JError "Not authenticated")
  else
    let userId := default "" authUserId in
    let userPhotos := stored s userId in
    match last userPhotos with
    | None => json 404 (JError "No photo available")
    | Some latestPhoto =>
        json 200 (JLatestPhoto (StoredPhoto.requestId latestPhoto)
                    (StoredPhoto.timestamp latestPhoto) true)
    end.

(** [userPhotos.find(p => p.requestId === requestId)]. *)
Definition find_photo (requestId : string) (userPhotos : list StoredPhoto.t)
    : option StoredPhoto.t :=
  List.find (fun p => bool_decide (StoredPhoto.requestId p = requestId)) userPhotos.

(** [GET /api/photo/:requestId], lines 594-620. *)
Definition api_photo (s : State) (authUserId : option string) (requestId : string)
    : Response :=
  if negb (js_truthy authUserId) then json 401 (JError "Not authenticated")
  else
    let userId := default "" authUserId in
    let userPhotos := stored s userId in
    match userPhotos with
    | [] => json 404 (JError "Photo not found")
    | _ =>
        match find_photo requestId userPhotos with
        | None => json 404 (JError "Photo not found")
        | Some photo =>
            json 200 (RawPhoto (StoredPhoto.mimeType photo) "no-cache"
                        (StoredPhoto.buffer photo))
        end
    end.

(** [GET /api/gemini-analysis], lines 623-650. *)
Definition api_gemini_analysis (s : State) (authUserId : option string) : Response :=
  if negb (js_truthy authUserId) then json 401 (JError "Not authenticated")
  else
    let userId := default "" authUserId in
    let userPhotos := stored s userId in
    match last userPhotos with
    | None => json 404 (JError "No photo available")
    | Some latestPhoto =>
        let analysis := StoredPhoto.geminiAnalysis latestPhoto in
        if negb (js_truthy analysis)
        then json 404 (JError "No Gemini analysis available yet")
        else json 200 (JAnalysis (default "" analysis))
    end.

(** [GET /api/photos], lines 653-671. *)
Definition photoSummary (photo : StoredPhoto.t) : PhotoSummary.t :=
  PhotoSummary.mk (StoredPhoto.requestId photo) (StoredPhoto.timestamp photo)
    (StoredPhoto.mimeType photo) (js_truthy (StoredPhoto.geminiAnalysis photo)).

Definition api_photos (s : State) (authUserId : option string) : Response :=
  if negb (js_truthy authUserId) then json 401 (JError "Not authenticated")
  else
    let userId := default "" authUserId in
    let userPhotos := stored s userId in
    json 200 (JPhotos (map photoSummary userPhotos)).

(** [GET /api/analysis/:requestId], lines 674-715. *)
Definition api_analysis (s : State) (authUserId : option string) (requestId : string)
    : Response :=
  if negb (js_truthy authUserId) then json 401 (JError "Not authenticated")
  else
    let userId := default "" authUserId in
    let userPhotos := stored s userId in
    match userPhotos with
    | [] => json 404 (JError "No photos found")
    | _ =>
        match find_photo requestId userPhotos with
        | None => json 404 (JError "Photo not found")
        | Some photo =>
            let analysis := StoredPhoto.geminiAnalysis photo in
            if negb (js_truthy analysis)
            then json 404 (JError "No analysis available yet")
            else json 200 (JAnalysis (default "" analysis))
        end
    end.

(** [POST /api/speak-analysis], lines 718-754, up to
    [await this.speakAnalysis(analysis, userId)]: either a response is
    sent ([inl]), or [speakAnalysis] is called with this text ([inr]). *)
Definition api_speak_analysis (s : State) (authUserId : option string)
    : Response + string :=
  if negb (js_truthy authUserId) then inl (json 401 (JError "Not authenticated"))
  else
    let userId := default "" authUserId in
    let userPhotos := stored s userId in
    match last userPhotos with
    | None => inl (json 404 (JError "No photos found"))
    | Some latestPhoto =>
        let analysis := StoredPhoto.geminiAnalysis latestPhoto in
        if negb (js_truthy analysis)
        then inl (json 404 (JError "No analysis available"))
        else inr (default "" analysis)
    end.

(** [POST /api/test-audio], lines 757-793, up to its first [await]:
    either a response is sent, or [session.audio.speak] is called on
    this session. *)
Definition api_test_audio (s : State) (authUserId : option string)
    : Response + Session :=
  if negb (js_truthy authUserId) then inl (json 401 (JError "Not authenticated"))
  else
    let userId := default "" authUserId in
    match sessions s !! userId with
    | None => inl (json 404 (JError "No active session"))
    | Some session => inr session
    end.

(** ** Vocabulary for the properties of the store and of runs *)

(** The user a parked task works for: the [userId] of its closure. *)
Definition task_user (k : Task) : string :=
  match k with
  | ButtonCamera _ u | ButtonShutter _ u _ | StreamCamera _ u | StreamShutter _ u _
  | GeminiGenerate _ u | GeminiResponse _ u _ | GeminiSpeak u => u
  end.

(** The user a callback segment runs for. *)
Definition event_user (s : State) (e : Event) : option string :=
  match e with
  | EvSession _ _ u _ | EvStop _ u _ | EvButton _ u _ | EvTick _ u _ => Some u
  | EvSettle tid _ _ => task_user <$> pending s !! tid
  end.

(** The photo a step hands to [cachePhoto], with its user: the step
    settles the confirmation sound of a capture, either way. *)
Definition cached_by (s : State) (e : Event) : option (string * PhotoData.t) :=
  match e with
  | EvSettle tid _ _ =>
      match pending s !! tid with
      | Some (ButtonShutter _ u photo) | Some (StreamShutter _ u photo) => Some (u, photo)
      | _ => None
      end
  | _ => None
  end.

(** The object [cachePhoto] builds, lines 172-180. *)
Definition cachedPhoto (photo : PhotoData.t) (userId : string) : StoredPhoto.t :=
  StoredPhoto.mk (PhotoData.requestId photo) (PhotoData.buffer photo)
    (PhotoData.timestamp photo) userId (PhotoData.mimeType photo)
    (PhotoData.filename photo) (PhotoData.size photo) None.

(** The addresses of a user's photo objects, in order of creation. *)
Definition owners (h : list StoredPhoto.t) (u : string) : list Ref :=
  filter (fun l => StoredPhoto.userId <$> h !! l = Some u) (seq 0 (length h)).

Definition is_generate (a : Action) : bool :=
  match a with AGenerateContent _ _ => true | _ => false end.

(** Capture calls in flight, or resolved with their photo not cached yet. *)
Definition holds_capture (k : Task) : bool :=
  match k with
  | ButtonCamera _ _ | ButtonShutter _ _ _ | StreamCamera _ _ | StreamShutter _ _ _ => true
  | _ => false
  end.

(** Steps that write a user's [nextPhotoTime] other than a firing tick:
    session start and stop, and the end of a successful tick capture. *)
Definition resets_cooldown (u : string) (s : State) (e : Event) : bool :=
  match e with
  | EvSession _ _ u' _ | EvStop _ u' _ => bool_decide (u' = u)
  | EvSettle tid _ _ =>
      match pending s !! tid with
      | Some (StreamShutter _ u' _) => bool_decide (u' = u)
      | _ => false
      end
  | _ => false
  end.

(** A run none of whose steps satisfies [bad]. *)
Fixpoint run_avoiding (bad : State -> Event -> bool) (evs : list Event) (s : State)
    : option State :=
  match evs with
  | [] => Some s
  | e :: evs' =>
      if bad s e then None
      else match step e s with
           | Some s' => run_avoiding bad evs' s'
           | None => None
           end
  end.

(** The session boundary of a user that comes last in a list of events:
    [Some (Some session)] for a start, [Some None] for a stop. *)
Fixpoint last_boundary (u : string) (evs : list Event) : option (option Session) :=
  match evs with
  | [] => None
  | e :: evs' =>
      match last_boundary u evs' with
      | Some b => Some b
      | None =>
          match e with
          | EvSession session _ u' _ => if bool_decide (u' = u) then Some (Some session) else None
          | EvStop _ u' _ => if bool_decide (u' = u) then Some None else None
          | _ => None
          end
      end
  end.

(** The number of long presses of a user in a list of events. *)
Definition long_presses (u : string) (evs : list Event) : nat :=
  length (filter (fun e => long_press_of u e = true) evs).

(** The photo lists, the photo objects and the latest timestamps agree:
    a user's list holds the addresses of exactly that user's objects in
    order of creation, no list is empty, and [latestPhotoTimestamp]
    holds the timestamp of the object last in the list. *)
Definition store_inv (s : State) : Prop :=
  (forall u, userPhotos s u = owners (heap s) u) /\
  (forall u, photos s !! u <> Some []) /\
  (forall u, latestPhotoTimestamp s !! u =
             last (userPhotos s u) ≫= fun l => StoredPhoto.timestamp <$> heap s !! l).

(** Task ids are handed out in increasing order, and an analysis works
    for the user its photo object belongs to. *)
Definition task_inv (s : State) : Prop :=
  (forall tid k, pending s !! tid = Some k -> (tid < nextTask s)%nat) /\
  (forall tid k l, pending s !! tid = Some k -> task_photo k = Some l ->
     StoredPhoto.userId <$> heap s !! l = Some (task_user k)).

(** The photo objects handed to [model.generateContent], in call order. *)
Definition generated (l : list Action) : list Ref :=
  omap (fun a => match a with AGenerateContent photo _ => Some photo | _ => None end) l.

(** The number of parked tasks that hold a capture. *)
Definition held_in (m : gmap nat Task) : nat :=
  size (filter (fun kv : nat * Task => holds_capture kv.2 = true) m).

(** [p'] is a later state of the photo object [p]: the same data, and the
    analysis kept once it is there. *)
Definition later (p p' : StoredPhoto.t) : Prop :=
  StoredPhoto.data p' = StoredPhoto.data p /\
  forall a, StoredPhoto.geminiAnalysis p = Some a -> StoredPhoto.geminiAnalysis p' = Some a.

(** ** The audio URL of [speakAnalysis], lines 433-437 *)

(** [s.endsWith(suffix)] and [s.slice(0, -1)] of JavaScript. *)
Definition endsWith (s suffix : string) : bool :=
  let n := String.length s in
  let m := String.length suffix in
  (m <=? n)%nat && String.eqb (String.substring (n - m) m s) suffix.

Definition slice_0_minus1 (s : string) : string :=
  String.substring 0 (String.length s - 1) s.

(** [cleanBaseUrl] and [audioUrl]; [baseUrl] is [PUBLIC_URL] or the
    localhost default, [audioFileName] the name of the saved file. *)
Definition cleanBaseUrl (baseUrl : string) : string :=
  if endsWith baseUrl "/" then slice_0_minus1 baseUrl else baseUrl.

Definition audioUrl (baseUrl audioFileName : string) : string :=
  cleanBaseUrl baseUrl +:+ "/audio/" +:+ audioFileName.

(** ** More sample runs *)

(** Bob toggles his streaming while Alice's capture is in flight. *)
Definition with_bob : State :=
  after (arming ++ [EvTick 7%nat "alice" 1; EvButton 8%nat "bob" long_press]).

(** The capture of the tick at 1 fails at 5000; a tick comes at 20000. *)
Definition backing_off : list Event :=
  [EvSettle 0%nat (Rejected "camera timeout") 5000; EvTick 7%nat "alice" 20000].

Definition backed_off : State :=
  after (arming ++ [EvTick 7%nat "alice" 1] ++ backing_off).

(** A short press whose photo the model answers with an empty text. *)
Definition blank : list Event :=
  [EvSession 7%nat "s1" "alice" 0;
   EvButton 7%nat "alice" short_press;
   EvSettle 0%nat (Resolved (VPhoto sample_photo)) 2;
   EvSettle 1%nat (Resolved VOther) 3;
   EvSettle 2%nat (Resolved (VContent (inl ""))) 4].

Definition blank_answered : State := after blank.

Definition blank_stored : State := after (blank ++ [EvSettle 3%nat (Resolved VOther) 5]).

(** Three long presses and a tick after a session start. *)
Definition toggling : list Event :=
  [EvButton 7%nat "alice" long_press; EvTick 7%nat "alice" 1;
   EvButton 7%nat "alice" long_press; EvButton 7%nat "alice" long_press].

Definition toggled : State := after (EvSession 7%nat "s1" "alice" 0 :: toggling).

(** A short press whose capture call is in flight. *)
Definition pressing : State :=
  after [EvSession 7%nat "s1" "alice" 0; EvButton 7%nat "alice" short_press].

(** ** The cooldown entry along the tick path *)

(** What holds while the confirmation sound awaited by task [tid0] is in
    flight and only events that [leaves_fallback] admits happen: the
    entry has the value [v] it had when the capture resolved ([None]: no
    entry), the rest of the callback is parked, and no other call of the
    user's tick path is in flight. *)
Definition sound_in_flight (userId : string) (v : option Z) (tid0 : nat)
    (session : Session) (photo : PhotoData.t) (s : State) : Prop :=
  nextPhotoTime s !! userId = v /\
  pending s !! tid0 = Some (StreamShutter session userId photo) /\
  (tid0 < nextTask s)%nat /\
  forall tid k, pending s !! tid = Some k -> stream_user k = Some userId -> tid = tid0.



(** ** Sample runs with overlapping captures and sessions *)








(** While the confirmation sound of [confirming] (call 1) is in flight:
    Bob starts a session, Alice presses the button shortly (call 2) and
    her tick comes at the fallback time 30001. *)
Definition sounding : list Event :=
  [EvSession 8%nat "s2" "bob" 4; EvButton 7%nat "alice" short_press;
   EvTick 7%nat "alice" 30001].

Definition still_confirming : State :=
  after (arming ++ [EvTick 7%nat "alice" 1;
                    EvSettle 0%nat (Resolved (VPhoto sample_photo)) 2] ++ sounding).

(** Instead, the tick at 30002 fires while that sound is in flight. *)
Definition confirming_late : State :=
  after (arming ++ [EvTick 7%nat "alice" 1;
                    EvSettle 0%nat (Resolved (VPhoto sample_photo)) 2;
                    EvTick 7%nat "alice" 30002]).

(** Alice launches the app twice (sessions 7 and 9 are both live), ... *)
Definition relaunching : list Event :=
  [EvSession 7%nat "s1" "alice" 0; EvSession 9%nat "s2" "alice" 50].

Definition relaunched : State := after relaunching.

(** ... session "s1" stops, ... *)
Definition halted : State := after (relaunching ++ [EvStop "s1" "alice" "user"]).

(** ... and she holds the button, which the handler of session 9 gets. *)
Definition rearmed : State :=
  after (relaunching ++ [EvStop "s1" "alice" "user"; EvButton 9%nat "alice" long_press]).

Definition refired : State :=
  after (relaunching ++ [EvStop "s1" "alice" "user"; EvButton 9%nat "alice" long_press;
                         EvTick 9%nat "alice" 101]).

(** ** Proof infrastructure *)

(** Runs a callback body on a state whose record has been opened. The
    reduction is call-by-value so that each primitive's result is a plain
    record before the next primitive reads it. *)
Ltac run_callbacks :=
  cbv [exec onSession onStop Part000.onSession Part000.onStop onButtonPress onInterval cachePhoto
    analyzePhotoWithGemini analyzePhoto_catch shutter_settled requestPhoto speak
    showTextWall console_error await unpark new_photo geminiAnalysis_set
    sessions_set sessions_delete isStreamingPhotos_get isStreamingPhotos_set
    nextPhotoTime_get nextPhotoTime_set nextPhotoTime_delete photos_get photos_set
    latestPhotoTimestamp_set emit bind ret userPhotos
    fst snd photos latestPhotoTimestamp isStreamingPhotos nextPhotoTime sessions
    heap pending nextTask trace StoredPhoto.timestamp] in *.

(** Closed goals about the sample runs are settled by evaluation. *)
Ltac by_run := vm_compute; reflexivity.

Lemma Some_eq_inv {A} (x y : A) : Some x = Some y -> x = y.
Proof. intros H; injection H; auto. Qed.

Lemma emitted_app (s s' : State) (l : list Action) :
  trace s' = trace s ++ l -> emitted s s' = l.
Proof. intros H. unfold emitted. rewrite H. apply drop_app_length. Qed.

Lemma emitted_refl (s : State) : emitted s s = [].
Proof. apply emitted_app. symmetry. apply app_nil_r. Qed.

Lemma onInterval_idle (s : State) (session : Session) (userId : string) (now : Z) :
  ~ tick_due s userId now -> step (EvTick session userId now) s = Some s.
Proof.
  intros Hidle. cbn [step]. f_equal. destruct s. unfold tick_due in Hidle.
  run_callbacks.
  destruct (isStreamingPhotos0 !! userId) as [[]|] eqn:Hs; cbn [truthy default andb];
    try reflexivity.
  case_bool_decide; [|reflexivity].
  exfalso. apply Hidle. split; [reflexivity | assumption].
Qed.

Lemma onInterval_fire (s : State) (session : Session) (userId : string) (now : Z) :
  tick_due s userId now ->
  step (EvTick session userId now) s =
    Some (exec (nextPhotoTime_set userId (now + coolDownInterval) ;;
                requestPhoto session (StreamCamera session userId)) s).
Proof.
  intros [Hs Hn]. cbn [step]. f_equal. destruct s. run_callbacks.
  cbv [isStreamingPhotos] in Hs. cbv [nextPhotoTime] in Hn.
  rewrite Hs. cbn [truthy default andb].
  rewrite bool_decide_eq_true_2 by assumption. reflexivity.
Qed.

Lemma onInterval_cases (s : State) (session : Session) (userId : string) (now : Z) :
  (tick_due s userId now /\
   step (EvTick session userId now) s =
     Some (exec (nextPhotoTime_set userId (now + coolDownInterval) ;;
                 requestPhoto session (StreamCamera session userId)) s)) \/
  (~ tick_due s userId now /\ step (EvTick session userId now) s = Some s).
Proof.
  destruct (decide (tick_due s userId now)) as [Hdue|Hidle].
  - left. split; [exact Hdue | apply onInterval_fire; exact Hdue].
  - right. split; [exact Hidle | apply onInterval_idle; exact Hidle].
Qed.

(** Case analysis on a step [H : step e s = Some s']: one goal per callback
    segment, with [s'] replaced by the segment run on [s]. *)
Ltac step_inv H :=
  match type of H with
  | step ?e ?s = Some ?s' =>
      destruct e as [session sessionId u now | sessionId u reason
                    | session u button | session u now | tid r now];
      [ cbn [step] in H
      | cbn [step] in H
      | cbn [step] in H; unfold onButtonPress in H;
        let Hlong := fresh "Hlong" in
        destruct (bool_decide (pressType button = "long")) eqn:Hlong
      | let Hdue := fresh "Hdue" in
        let Heq := fresh "Heq" in
        destruct (onInterval_cases s session u now) as [[Hdue Heq]|[Hdue Heq]];
        rewrite Heq in H; clear Heq
      | cbn [step] in H;
        let k := fresh "k" in
        let Hk := fresh "Hk" in
        destruct (pending s !! tid) as [k|] eqn:Hk; [|discriminate H];
        destruct k as [session u | session u photo | session u | session u photo
                      | l u | l u [analysis|err] | u];
        destruct r as [[photo'|text|]|error]; cbn [resume] in H;
        try discriminate H ];
      apply Some_eq_inv in H; subst s'
  end.

Lemma onInterval_fire_spec (s : State) (session : Session) (userId : string) (now : Z) :
  tick_due s userId now ->
  exists s', step (EvTick session userId now) s = Some s' /\
    emitted s s' = [ANextPhotoTimeSet userId (now + coolDownInterval);
                    ARequestPhoto session (nextTask s)] /\
    nextPhotoTime s' = <[userId := now + coolDownInterval]> (nextPhotoTime s) /\
    pending s' = <[nextTask s := StreamCamera session userId]> (pending s) /\
    nextTask s' = S (nextTask s) /\
    isStreamingPhotos s' = isStreamingPhotos s /\
    photos s' = photos s /\ heap s' = heap s /\ sessions s' = sessions s /\
    latestPhotoTimestamp s' = latestPhotoTimestamp s.
Proof.
  intros Hdue. rewrite onInterval_fire by exact Hdue.
  eexists. split; [reflexivity|].
  split; [apply emitted_app; destruct s; run_callbacks; rewrite <- app_assoc; reflexivity|].
  destruct s. run_callbacks. repeat split.
Qed.

(** Splits lookups in [pending] after a step: the parked task, or an older one. *)
Ltac pending_cases :=
  repeat match goal with
  | H : <[_ := _]> _ !! _ = Some _ |- _ =>
      apply lookup_insert_Some in H; destruct H as [[? ?]|[? H]]
  | H : delete _ _ !! _ = Some _ |- _ =>
      apply lookup_delete_Some in H; destruct H as [? H]
  end.

(** ** The tick guard *)

(** C2. Whatever the state, the user and the value of [isStreamingPhotos],
    a tick whose guard fails ([isStreaming] is not [true], or the current
    time is not strictly greater than [nextPhotoTime], read as 0 when the
    entry is absent) changes nothing and issues no capture; so any
    sequence of such ticks leaves the state as it was. In particular no
    capture is issued while the current time is at most the user's
    [nextPhotoTime]. *)
Theorem tick_is_noop_unless_due
    (s : State) (userId : string) (ticks : list (Session * Z)) :
  Forall (fun t => ~ tick_due s userId t.2) ticks ->
  run (map (fun t => EvTick t.1 userId t.2) ticks) s = Some s /\
  forall session now n,
    nextPhotoTime s !! userId = Some n -> now <= n ->
    exists s', step (EvTick session userId now) s = Some s' /\
      s' = s /\ captures (emitted s s') = 0%nat.
Proof.
  intros Hall. split.
  - induction Hall as [|t ticks Ht _ IH]; [reflexivity|].
    cbn [map run]. rewrite onInterval_idle by exact Ht. exact IH.
  - intros session now n Hn Hle. exists s. split; [|split; [reflexivity|]].
    + apply onInterval_idle. intros [_ Hgt]. rewrite Hn in Hgt. cbn in Hgt. lia.
    + rewrite emitted_refl. reflexivity.
Qed.

(** A run for C2: while the capture of the tick at 1 is in flight, the
    ticks at 1000 and at 30001 (the fallback itself) do nothing. *)
Lemma tick_is_noop_unless_due_witness :
  Forall (fun t : Session * Z => ~ tick_due capturing "alice" t.2)
    [(7%nat, 1000); (7%nat, 30001)] /\
  run [EvTick 7%nat "alice" 1000; EvTick 7%nat "alice" 30001] capturing = Some capturing.
Proof.
  assert (Hn : nextPhotoTime capturing !! "alice" = Some 30001) by by_run.
  assert (H : Forall (fun t : Session * Z => ~ tick_due capturing "alice" t.2)
                [(7%nat, 1000); (7%nat, 30001)]).
  { repeat constructor; intros [_ Hgt]; rewrite Hn in Hgt; cbn in Hgt; lia. }
  split; [exact H|].
  exact (proj1 (tick_is_noop_unless_due capturing "alice" _ H)).
Defined.

(** ** The streaming flag and session stop *)

Lemma step_isStreaming_frame (s : State) (e : Event) (s' : State) (userId : string) :
  step e s = Some s' ->
  long_press_of userId e = false -> session_boundary_of userId e = false ->
  isStreamingPhotos s' !! userId = isStreamingPhotos s !! userId.
Proof.
  intros H Hl Hb. step_inv H; destruct s; run_callbacks;
    cbn [long_press_of session_boundary_of] in *.
  all: repeat case_bool_decide; try discriminate; cbn [andb] in *.
  all: try reflexivity.
  all: try (destruct (_ && _); reflexivity).
  all: try (rewrite lookup_insert_ne by assumption; reflexivity).
Qed.

Lemma onStop_spec (s : State) (sessionId userId reason : string) :
  exists s', step (EvStop sessionId userId reason) s = Some s' /\
    isStreamingPhotos s' !! userId = Some false /\
    nextPhotoTime s' !! userId = None /\
    sessions s' !! userId = None.
Proof.
  eexists. split; [reflexivity|]. destruct s. run_callbacks.
  rewrite lookup_insert_eq, !lookup_delete_eq. auto.
Qed.

Lemma run_isStreaming_frame (evs : list Event) (s s' : State) (userId : string) :
  run evs s = Some s' ->
  Forall (fun e => long_press_of userId e = false) evs ->
  isStreamingPhotos s !! userId = Some false ->
  isStreamingPhotos s' !! userId = Some false.
Proof.
  revert s. induction evs as [|e evs IH]; intros s Hrun Hall Hs.
  - cbn in Hrun. apply Some_eq_inv in Hrun. subst s'. exact Hs.
  - cbn [run] in Hrun. destruct (step e s) as [s1|] eqn:Hstep; [|discriminate].
    inversion Hall as [|? ? Hl Hall']; subst.
    apply (IH s1 Hrun Hall').
    destruct (session_boundary_of userId e) eqn:Hb.
    + destruct e; cbn in Hb; try discriminate; case_bool_decide; try discriminate;
        subst; cbn [step] in Hstep; apply Some_eq_inv in Hstep; subst s1;
        destruct s; run_callbacks.
      * rewrite lookup_insert_eq. reflexivity.
      * rewrite lookup_insert_eq. reflexivity.
    + rewrite (step_isStreaming_frame s e s1 userId Hstep Hl Hb). exact Hs.
Qed.

(** C7 (amended). Session stop for a user sets the user's
    [isStreamingPhotos] entry to [false] and removes the [nextPhotoTime]
    and [sessions] entries. From then on every tick for the user changes
    nothing and issues no capture, whatever else happens in between
    (calls still in flight that settle, events of other users, even new
    session starts), until a long press of that user is handled. Neither
    the interval nor the button handler is removed by [onStop], and a
    second session of the user can be live, so such a long press need not
    wait for a new session start. *)
Theorem stop_disarms_ticks
    (s : State) (sessionId userId reason : string) (evs : list Event) :
  Forall (fun e => long_press_of userId e = false) evs ->
  exists s1, step (EvStop sessionId userId reason) s = Some s1 /\
    isStreamingPhotos s1 !! userId = Some false /\
    nextPhotoTime s1 !! userId = None /\
    sessions s1 !! userId = None /\
    forall s2, run evs s1 = Some s2 ->
      forall session now,
        step (EvTick session userId now) s2 = Some s2 /\ emitted s2 s2 = [].
Proof.
  intros Hall. destruct (onStop_spec s sessionId userId reason) as (s1 & H1 & Hs & Hn & Hsess).
  exists s1. repeat (split; [assumption|]).
  intros s2 Hrun session now. split; [|apply emitted_refl].
  apply onInterval_idle. intros [Hd _].
  rewrite (run_isStreaming_frame evs s1 s2 userId Hrun Hall Hs) in Hd. discriminate.
Qed.

(** A run for C7: Alice stops while a capture is in flight; the capture
    and its confirmation sound settle afterwards (which writes
    [nextPhotoTime] again and caches the photo), Bob presses his button;
    Alice's tick still does nothing. *)
Lemma stop_disarms_ticks_witness :
  Forall (fun e => long_press_of "alice" e = false)
    [EvSettle 0%nat (Resolved (VPhoto sample_photo)) 2; EvSettle 1%nat (Resolved VOther) 5;
     EvButton 8%nat "bob" long_press] /\
  exists s1, step (EvStop "s1" "alice" "user") capturing = Some s1 /\
    isStreamingPhotos s1 !! "alice" = Some false /\
    nextPhotoTime s1 !! "alice" = None /\
    forall s2,
      run [EvSettle 0%nat (Resolved (VPhoto sample_photo)) 2;
           EvSettle 1%nat (Resolved VOther) 5; EvButton 8%nat "bob" long_press] s1 = Some s2 ->
      step (EvTick 7%nat "alice" 99999) s2 = Some s2.
Proof.
  assert (H : Forall (fun e => long_press_of "alice" e = false)
    [EvSettle 0%nat (Resolved (VPhoto sample_photo)) 2; EvSettle 1%nat (Resolved VOther) 5;
     EvButton 8%nat "bob" long_press]).
  { repeat (constructor; [by_run|]). constructor. }
  split; [exact H|].
  destruct (stop_disarms_ticks capturing "s1" "alice" "user" _ H)
    as (s1 & Hstep & Hs & Hn & _ & Hticks).
  exists s1. split; [exact Hstep|]. split; [exact Hs|]. split; [exact Hn|].
  intros s2 Hrun. exact (proj1 (Hticks s2 Hrun 7%nat 99999)).
Defined.

(** C7 as stated fails: ticks after a stop are not no-ops until a new
    session start. Alice has two live sessions, 7 and 9; session "s1"
    stops (flag false, [nextPhotoTime] entry gone); the button handler of
    session 9 gets a long press and sets the flag (line 79); the tick of
    session 9 at 101 finds the flag set and 101 > 0 (the absent entry,
    line 116), writes the fallback and requests a photo. No session
    starts between the stop and that tick. *)
Lemma tick_fires_after_stop :
  run relaunching init = Some relaunched /\
  step (EvStop "s1" "alice" "user") relaunched = Some halted /\
  isStreamingPhotos halted !! "alice" = Some false /\
  nextPhotoTime halted !! "alice" = None /\
  step (EvButton 9%nat "alice" long_press) halted = Some rearmed /\
  isStreamingPhotos rearmed !! "alice" = Some true /\
  step (EvTick 9%nat "alice" 101) rearmed = Some refired /\
  emitted rearmed refired = [ANextPhotoTimeSet "alice" 30101; ARequestPhoto 9%nat 0%nat] /\
  refired <> rearmed.
Proof.
  do 8 (split; [by_run|]). intros H. apply (f_equal nextTask) in H.
  vm_compute in H. discriminate H.
Qed.


(** C6 (amended). A session start for the user leaves the user's
    [isStreamingPhotos] entry [false], and so does a session stop. A long
    press of the user replaces the entry by the negation of its current
    value (an absent entry counts as [false]); it performs this one write,
    issues no capture and parks nothing. No other step changes the entry. *)
Theorem isStreaming_only_toggled_or_reset
    (s : State) (e : Event) (s' : State) (userId : string) :
  step e s = Some s' ->
  (session_boundary_of userId e = true ->
     isStreamingPhotos s' !! userId = Some false) /\
  (long_press_of userId e = true ->
     isStreamingPhotos s' !! userId =
       Some (negb (truthy (isStreamingPhotos s !! userId))) /\
     emitted s s' =
       [AIsStreamingSet userId (negb (truthy (isStreamingPhotos s !! userId)))] /\
     captures (emitted s s') = 0%nat /\
     pending s' = pending s) /\
  (session_boundary_of userId e = false -> long_press_of userId e = false ->
     isStreamingPhotos s' !! userId = isStreamingPhotos s !! userId).
Proof.
  intros H. split; [|split].
  - intros Hb. destruct e; cbn in Hb; try discriminate; case_bool_decide;
      try discriminate; subst; cbn [step] in H; apply Some_eq_inv in H; subst s';
      destruct s; run_callbacks; apply lookup_insert_eq.
  - intros Hl. destruct e as [| |session u button| |]; cbn in Hl; try discriminate.
    apply andb_prop in Hl as [Hu Hp].
    apply bool_decide_eq_true_1 in Hu. subst u.
    cbn [step] in H. apply Some_eq_inv in H. subst s'.
    assert (Hs' : exec (onButtonPress session userId button) s =
                  exec (isStreamingPhotos_set userId
                          (negb (truthy (isStreamingPhotos s !! userId)))) s).
    { unfold onButtonPress. rewrite Hp. reflexivity. }
    rewrite Hs'. clear Hs'.
    assert (Htr : emitted s (exec (isStreamingPhotos_set userId
                          (negb (truthy (isStreamingPhotos s !! userId)))) s) =
                  [AIsStreamingSet userId (negb (truthy (isStreamingPhotos s !! userId)))]).
    { apply emitted_app. destruct s. reflexivity. }
    rewrite Htr. destruct s. run_callbacks. rewrite lookup_insert_eq. auto.
  - intros Hb Hl. exact (step_isStreaming_frame s e s' userId H Hl Hb).
Qed.

(** A run for C6: a long press while streaming is on switches it off and
    issues no capture. *)
Lemma isStreaming_only_toggled_or_reset_witness :
  step (EvButton 7%nat "alice" long_press) armed =
    Some (after (arming ++ [EvButton 7%nat "alice" long_press])) /\
  isStreamingPhotos (after (arming ++ [EvButton 7%nat "alice" long_press])) !! "alice" =
    Some false /\
  captures (emitted armed (after (arming ++ [EvButton 7%nat "alice" long_press]))) = 0%nat.
Proof.
  assert (Hstep : step (EvButton 7%nat "alice" long_press) armed =
                  Some (after (arming ++ [EvButton 7%nat "alice" long_press]))) by by_run.
  split; [exact Hstep|].
  destruct (proj1 (proj2 (isStreaming_only_toggled_or_reset armed _ _ "alice" Hstep)) eq_refl)
    as (Hflag & _ & Hcap & _).
  split; [|exact Hcap].
  rewrite Hflag. by_run.
Defined.

(** C6 as stated fails: the entry is not changed by long presses only.
    Alice's streaming is on; the session stop, which is no button press,
    changes it to [false] (line 159). *)
Lemma isStreaming_changed_by_stop :
  isStreamingPhotos armed !! "alice" = Some true /\
  step (EvStop "s1" "alice" "user") armed = Some stopped /\
  long_press_of "alice" (EvStop "s1" "alice" "user") = false /\
  isStreamingPhotos stopped !! "alice" = Some false /\
  isStreamingPhotos stopped !! "alice" <> isStreamingPhotos armed !! "alice".
Proof.
  repeat (split; [by_run|]). vm_compute. discriminate.
Qed.

(** C5. In every state and for every user, a press whose [pressType] is
    not ["long"] shows the text wall and issues exactly one capture
    request, whatever [isStreamingPhotos] and [nextPhotoTime] hold. Two
    long presses followed by such a press, with nothing in between, leave
    [isStreamingPhotos] at its initial truth value, hence [false] when
    streaming was off as after a session start, and issue exactly one
    capture request. *)
Theorem short_press_captures_once
    (s : State) (session : Session) (userId : string)
    (button long1 long2 : ButtonPress) :
  pressType button <> "long" ->
  pressType long1 = "long" -> pressType long2 = "long" ->
  (exists s', step (EvButton session userId button) s = Some s' /\
     emitted s s' = [AShowTextWall session "Button pressed, about to take photo";
                     ARequestPhoto session (nextTask s)] /\
     captures (emitted s s') = 1%nat /\
     pending s' !! nextTask s = Some (ButtonCamera session userId)) /\
  (exists s3,
     run [EvButton session userId long1; EvButton session userId long2;
          EvButton session userId button] s = Some s3 /\
     isStreamingPhotos s3 !! userId = Some (truthy (isStreamingPhotos s !! userId)) /\
     (isStreamingPhotos s !! userId <> Some true ->
        isStreamingPhotos s3 !! userId = Some false) /\
     captures (emitted s s3) = 1%nat).
Proof.
  intros Hshort Hl1 Hl2.
  apply (bool_decide_eq_false_2 (pressType button = "long")) in Hshort.
  apply (bool_decide_eq_true_2 (pressType long1 = "long")) in Hl1.
  apply (bool_decide_eq_true_2 (pressType long2 = "long")) in Hl2.
  split.
  - eexists. split; [reflexivity|].
    unfold onButtonPress. rewrite Hshort.
    assert (Htr : forall s0, emitted s0 (exec (showTextWall session "Button pressed, about to take photo";;
               requestPhoto session (ButtonCamera session userId)) s0) =
        [AShowTextWall session "Button pressed, about to take photo";
         ARequestPhoto session (nextTask s0)]).
    { intros s0. apply emitted_app. destruct s0. run_callbacks. rewrite <- app_assoc. reflexivity. }
    rewrite Htr. destruct s. run_callbacks. rewrite lookup_insert_eq. auto.
  - destruct s. cbn [run step]. unfold onButtonPress. rewrite Hshort, Hl1, Hl2.
    eexists. split; [reflexivity|]. run_callbacks.
    rewrite !lookup_insert_eq. cbn [truthy default id].
    assert (Hnn : negb (negb (truthy (isStreamingPhotos0 !! userId))) =
                  truthy (isStreamingPhotos0 !! userId))
      by (destruct (truthy (isStreamingPhotos0 !! userId)); reflexivity).
    rewrite Hnn. split; [reflexivity|]. split.
    + intros Hne. f_equal.
      destruct (isStreamingPhotos0 !! userId) as [[]|]; try reflexivity. congruence.
    + erewrite emitted_app; [|cbn [trace]; rewrite <- !app_assoc; reflexivity].
      reflexivity.
Qed.

(** A run for C5: long, long, short right after a session start. *)
Lemma short_press_captures_once_witness :
  pressType short_press <> "long" /\
  exists s3,
    run [EvButton 7%nat "alice" long_press; EvButton 7%nat "alice" long_press;
         EvButton 7%nat "alice" short_press]
      (after [EvSession 7%nat "s1" "alice" 0]) = Some s3 /\
    isStreamingPhotos s3 !! "alice" = Some false /\
    captures (emitted (after [EvSession 7%nat "s1" "alice" 0]) s3) = 1%nat.
Proof.
  assert (Hs : pressType short_press <> "long") by (cbn; discriminate).
  split; [exact Hs|].
  destruct (proj2 (short_press_captures_once (after [EvSession 7%nat "s1" "alice" 0])
              7%nat "alice" short_press long_press long_press Hs eq_refl eq_refl))
    as (s3 & Hrun & _ & Hfalse & Hone).
  exists s3. split; [exact Hrun|]. split; [|exact Hone].
  apply Hfalse. vm_compute. discriminate.
Defined.

(** ** The cooldown *)

(** C10. No segment of the short-press path (the handler up to the
    capture request, the continuation after the capture whether it
    resolved or rejected, the continuation after the confirmation sound,
    the analysis it dispatches) writes [isStreamingPhotos] or
    [nextPhotoTime]: both maps are the same before and after. *)
Theorem short_press_keeps_cooldown (s : State) (e : Event) (s' : State) :
  step e s = Some s' ->
  short_press_path s e = true ->
  isStreamingPhotos s' = isStreamingPhotos s /\
  nextPhotoTime s' = nextPhotoTime s.
Proof.
  intros H Hp. step_inv H; cbn [short_press_path] in Hp;
    rewrite ?Hlong, ?Hk in Hp; try discriminate Hp.
  all: destruct s; run_callbacks; split; reflexivity.
Qed.

(** A run for C10: a short press while a tick-triggered capture is in
    flight leaves the fallback in place. *)
Lemma short_press_keeps_cooldown_witness :
  short_press_path capturing (EvButton 7%nat "alice" short_press) = true /\
  exists s', step (EvButton 7%nat "alice" short_press) capturing = Some s' /\
    isStreamingPhotos s' = isStreamingPhotos capturing /\
    nextPhotoTime s' = nextPhotoTime capturing.
Proof.
  split; [by_run|].
  eexists. split; [reflexivity|].
  apply (short_press_keeps_cooldown capturing (EvButton 7%nat "alice" short_press));
    [reflexivity | by_run].
Defined.

Lemma sound_in_flight_step (userId : string) (v : option Z) (tid0 : nat)
    (session0 : Session) (photo0 : PhotoData.t) (s : State) (e : Event) (s' : State) :
  sound_in_flight userId v tid0 session0 photo0 s ->
  leaves_fallback userId (default 0 v) tid0 e = true ->
  step e s = Some s' ->
  sound_in_flight userId v tid0 session0 photo0 s'.
Proof.
  intros (Hn & Hp & Hlt & Huniq) Hq H.
  step_inv H; cbn [leaves_fallback] in Hq.
  all: destruct s; unfold sound_in_flight, tick_due in *; run_callbacks.
  all: repeat case_bool_decide; cbn [negb orb andb] in Hq; try discriminate Hq.
  all: try (destruct (decide (u = userId)) as [->|Hne]).
  all: try (specialize (Huniq _ _ Hk eq_refl); congruence).
  all: try (exfalso; destruct Hdue as [_ Hdue]; rewrite Hn in Hdue; lia).
  all: try congruence.
  all: repeat split; try assumption; try lia.
  all: rewrite ?lookup_insert_ne, ?lookup_delete_ne by (congruence || lia); try assumption.
  all: intros tid1 k1 Hl Hs; pending_cases; subst; cbn [stream_user] in *;
    try discriminate; try congruence; eauto.
Qed.

Lemma sound_in_flight_run (userId : string) (v : option Z) (tid0 : nat)
    (session0 : Session) (photo0 : PhotoData.t) (evs : list Event) (s s' : State) :
  sound_in_flight userId v tid0 session0 photo0 s ->
  Forall (fun e => leaves_fallback userId (default 0 v) tid0 e = true) evs ->
  run evs s = Some s' ->
  sound_in_flight userId v tid0 session0 photo0 s'.
Proof.
  revert s. induction evs as [|e evs IH]; intros s Hin Hall Hrun.
  - cbn in Hrun. apply Some_eq_inv in Hrun. subst s'. exact Hin.
  - cbn [run] in Hrun. destruct (step e s) as [s1|] eqn:Hstep; [|discriminate].
    inversion Hall as [|? ? Hq Hall']; subst.
    exact (IH s1 (sound_in_flight_step _ _ _ _ _ _ _ _ Hin Hq Hstep) Hall' Hrun).
Qed.

(** The capture call of a tick resolving: the callback goes on to the
    confirmation sound and writes no map. *)
Lemma stream_capture_resolved (s : State) (tid : nat) (session : Session) (userId : string)
    (photo : PhotoData.t) (now : Z) :
  pending s !! tid = Some (StreamCamera session userId) ->
  exists s', step (EvSettle tid (Resolved (VPhoto photo)) now) s = Some s' /\
    nextPhotoTime s' = nextPhotoTime s /\
    emitted s s' = [ASpeak session "Photo taken" (nextTask s)] /\
    pending s' = <[nextTask s := StreamShutter session userId photo]> (delete tid (pending s)) /\
    nextTask s' = S (nextTask s).
Proof.
  intros Hk. cbn [step]. rewrite Hk. cbn [resume]. eexists. split; [reflexivity|].
  split; [destruct s; reflexivity|].
  split; [apply emitted_app; destruct s; reflexivity|].
  destruct s. run_callbacks. split; reflexivity.
Qed.

(** C3 (amended). When the capture call of a tick resolves, the callback
    goes on to the confirmation sound and does not write [nextPhotoTime].
    While that sound call is in flight the user's entry keeps the value it
    had, provided no other call of the user's tick path is in flight and
    the events in between are neither a session start or stop of the user
    nor a tick of the user later than that value (an absent entry reads
    as 0). When the sound call settles, resolved or rejected, the callback
    sets the user's [nextPhotoTime] to the current time of that moment; a
    tick for the user at any later time then fires, if streaming is still
    on. In the revision without confirmation sound ([Part000]) the entry
    is set to the current time when the capture call resolves. *)
Theorem stream_capture_success_resets_cooldown
    (s : State) (tid : nat) (session : Session) (userId : string)
    (photo : PhotoData.t) (r : Settled) (now : Z) (evs : list Event) :
  (pending s !! tid = Some (StreamCamera session userId) ->
   exists s', step (EvSettle tid (Resolved (VPhoto photo)) now) s = Some s' /\
     nextPhotoTime s' = nextPhotoTime s /\
     emitted s s' = [ASpeak session "Photo taken" (nextTask s)] /\
     pending s' !! nextTask s = Some (StreamShutter session userId photo) /\
     ((forall tid' k, pending s !! tid' = Some k -> stream_user k = Some userId ->
         tid' = tid) ->
      Forall (fun e => leaves_fallback userId (default 0 (nextPhotoTime s !! userId))
                         (nextTask s) e = true) evs ->
      forall s'', run evs s' = Some s'' ->
        pending s'' !! nextTask s = Some (StreamShutter session userId photo) /\
        nextPhotoTime s'' !! userId = nextPhotoTime s !! userId)) /\
  (pending s !! tid = Some (StreamShutter session userId photo) ->
   exists s', step (EvSettle tid r now) s = Some s' /\
     nextPhotoTime s' !! userId = Some now /\
     isStreamingPhotos s' = isStreamingPhotos s /\
     forall session' now',
       isStreamingPhotos s !! userId = Some true -> now' > now ->
       exists s'', step (EvTick session' userId now') s' = Some s'' /\
         captures (emitted s' s'') = 1%nat) /\
  (pending s !! tid = Some (StreamCamera session userId) ->
   exists s', Part000.step (EvSettle tid (Resolved (VPhoto photo)) now) s = Some s' /\
     nextPhotoTime s' !! userId = Some now).
Proof.
  split; [|split]; intros Hk.
  - destruct (stream_capture_resolved s tid session userId photo now Hk)
      as (s' & Hstep & Hn & Hem & Hp & Hnt).
    exists s'. split; [exact Hstep|]. split; [exact Hn|]. split; [exact Hem|].
    split; [rewrite Hp; apply lookup_insert_eq|].
    intros Huniq Hall s'' Hrun.
    assert (Hin : sound_in_flight userId (nextPhotoTime s !! userId) (nextTask s)
                    session photo s').
    { unfold sound_in_flight. rewrite Hn, Hp, Hnt, lookup_insert_eq.
      repeat split; try lia.
      intros tid1 k1 Hl Hs. apply lookup_insert_Some in Hl as [[? ?]|[? Hl]]; [congruence|].
      apply lookup_delete_Some in Hl as [Hne Hl].
      exfalso. apply Hne. symmetry. exact (Huniq tid1 k1 Hl Hs). }
    destruct (sound_in_flight_run _ _ _ _ _ evs s' s'' Hin Hall Hrun) as (? & ? & _).
    split; assumption.
  - cbn [step]. rewrite Hk. cbn [resume].
    eexists. split; [reflexivity|].
    match goal with |- nextPhotoTime ?x !! _ = _ /\ _ => set (s' := x) end.
    assert (Hn : nextPhotoTime s' !! userId = Some now)
      by (subst s'; destruct s, r; run_callbacks; apply lookup_insert_eq).
    assert (Hi : isStreamingPhotos s' = isStreamingPhotos s)
      by (subst s'; destruct s, r; reflexivity).
    split; [exact Hn|]. split; [exact Hi|].
    intros session' now' Hs Hgt.
    destruct (onInterval_fire_spec s' session' userId now') as (s'' & Hstep & Hem & _).
    { split; [rewrite Hi; exact Hs | rewrite Hn; exact Hgt]. }
    exists s''. split; [exact Hstep|]. rewrite Hem. reflexivity.
  - cbn [Part000.step]. rewrite Hk. cbn [Part000.resume]. eexists. split; [reflexivity|].
    destruct s. run_callbacks. apply lookup_insert_eq.
Qed.

(** A run for C3: the capture of the tick at 1 resolves at 2; while the
    sound is in flight, Bob's session start, a short press and a tick at
    the fallback time 30001 leave the entry at 30001; the sound settles
    at 30005, the entry is 30005 and the tick at 30006 fires. *)
Lemma stream_capture_success_resets_cooldown_witness :
  pending capturing !! 0%nat = Some (StreamCamera 7%nat "alice") /\
  step (EvSettle 0%nat (Resolved (VPhoto sample_photo)) 2) capturing = Some confirming /\
  run sounding confirming = Some still_confirming /\
  pending still_confirming !! 1%nat = Some (StreamShutter 7%nat "alice" sample_photo) /\
  nextPhotoTime still_confirming !! "alice" = Some 30001 /\
  exists s', step (EvSettle 1%nat (Rejected "no speaker") 30005) still_confirming = Some s' /\
    nextPhotoTime s' !! "alice" = Some 30005 /\
    exists s'', step (EvTick 7%nat "alice" 30006) s' = Some s'' /\
      captures (emitted s' s'') = 1%nat.
Proof.
  assert (Hc : pending capturing !! 0%nat = Some (StreamCamera 7%nat "alice")) by by_run.
  assert (E1 : step (EvSettle 0%nat (Resolved (VPhoto sample_photo)) 2) capturing =
                 Some confirming) by by_run.
  assert (E2 : run sounding confirming = Some still_confirming) by by_run.
  assert (Huniq : forall tid' k, pending capturing !! tid' = Some k ->
                    stream_user k = Some "alice" -> tid' = 0%nat).
  { intros tid' k H _.
    replace (pending capturing)
      with ({[0%nat := StreamCamera 7%nat "alice"]} : gmap nat Task) in H by by_run.
    apply lookup_singleton_Some in H as [<- _]. reflexivity. }
  assert (Hall : Forall (fun e => leaves_fallback "alice"
                    (default 0 (nextPhotoTime capturing !! "alice"))
                    (nextTask capturing) e = true) sounding).
  { repeat (constructor; [by_run|]). constructor. }
  destruct (proj1 (stream_capture_success_resets_cooldown capturing 0%nat 7%nat
              "alice" sample_photo (Resolved VOther) 2 sounding) Hc)
    as (s1 & Hstep & _ & _ & _ & Hheld).
  rewrite E1 in Hstep. apply Some_eq_inv in Hstep. subst s1.
  destruct (Hheld Huniq Hall still_confirming E2) as [Hp Hn].
  replace (nextTask capturing) with 1%nat in Hp by by_run.
  replace (nextPhotoTime capturing !! "alice") with (Some 30001) in Hn by by_run.
  split; [exact Hc|]. split; [exact E1|]. split; [exact E2|].
  split; [exact Hp|]. split; [exact Hn|].
  destruct (proj1 (proj2 (stream_capture_success_resets_cooldown still_confirming 1%nat 7%nat
              "alice" sample_photo (Rejected "no speaker") 30005 [])) Hp)
    as (s' & Hstep' & Hn' & _ & Hnext).
  exists s'. split; [exact Hstep'|]. split; [exact Hn'|].
  apply Hnext; [by_run | lia].
Defined.

(** Without those provisos the entry does change while the sound is in
    flight: from [confirming] (entry 30001, sound call 1 in flight) the
    tick at 30002 fires and writes 60002, and a session stop removes the
    entry; the rest of the callback is parked all the while. *)
Example cooldown_written_during_sound :
  nextPhotoTime confirming !! "alice" = Some 30001 /\
  step (EvTick 7%nat "alice" 30002) confirming = Some confirming_late /\
  pending confirming_late !! 1%nat = Some (StreamShutter 7%nat "alice" sample_photo) /\
  nextPhotoTime confirming_late !! "alice" = Some 60002 /\
  exists s', step (EvStop "s1" "alice" "user") confirming = Some s' /\
    pending s' !! 1%nat = Some (StreamShutter 7%nat "alice" sample_photo) /\
    nextPhotoTime s' !! "alice" = None.
Proof.
  do 4 (split; [by_run|]). eexists. split; [reflexivity|]. split; by_run.
Qed.

(** C3 as stated fails: the tick at 1 fired, the capture resolves at 2,
    and [nextPhotoTime] is still the fallback 30001 (line 139 awaits the
    confirmation sound first); when the sound has been played at 5 the
    entry becomes 5 (line 146), not the completion time 2 of the capture. *)
Lemma stream_capture_completion_keeps_fallback :
  pending capturing !! 0%nat = Some (StreamCamera 7%nat "alice") /\
  step (EvSettle 0%nat (Resolved (VPhoto sample_photo)) 2) capturing = Some confirming /\
  nextPhotoTime confirming !! "alice" = Some 30001 /\
  nextPhotoTime confirming !! "alice" <> Some 2 /\
  step (EvSettle 1%nat (Resolved VOther) 5) confirming = Some confirmed /\
  nextPhotoTime confirmed !! "alice" = Some 5 /\
  nextPhotoTime confirmed !! "alice" <> Some 2.
Proof.
  do 3 (split; [by_run|]). split; [vm_compute; discriminate|].
  do 2 (split; [by_run|]). vm_compute. discriminate.
Qed.

(** ** The fallback while a capture is in flight *)





(** ** A failed capture of the tick path *)








(** ** Photo objects and the photo lists *)

Lemma analysis_inv_init : analysis_inv init.
Proof.
  split.
  - intros tid k l H. cbn in H. rewrite lookup_empty in H. discriminate.
  - intros t1 t2 k1 k2 l H. cbn in H. rewrite lookup_empty in H. discriminate.
Qed.

Lemma heap_no_fresh (h : list StoredPhoto.t) (p : StoredPhoto.t) :
  h !! length h = Some p -> False.
Proof. intros H. apply lookup_lt_Some in H. lia. Qed.

Lemma analysis_inv_step (s : State) (e : Event) (s' : State) :
  analysis_inv s -> step e s = Some s' -> analysis_inv s'.
Proof.
  intros [Ha Hb] H.
  step_inv H; destruct s; unfold analysis_inv in *; run_callbacks.
  all: split; [intros tid1 k1 l1 Hl Ht | intros t1 t2 k1 k2 l1 Hl1 Hl2 Ht1 Ht2].
  all: pending_cases; subst; cbn [task_photo] in *; try discriminate.
  all: eauto.
  all: repeat match goal with H : Some _ = Some _ |- _ => injection H as H; subst end.
  (* an object created by this step *)
  all: try (eexists; split; [apply list_lookup_middle; reflexivity | reflexivity]).
  (* an older analysis cannot refer to the object created by this step *)
  all: try (exfalso;
            match goal with
            | Hl : _ !! _ = Some ?k, Ht : task_photo ?k = Some (length _) |- _ =>
                destruct (Ha _ _ _ Hl Ht) as (? & Hfresh & _);
                exact (heap_no_fresh _ _ Hfresh)
            end).
  (* no other analysis refers to the object of the settled one *)
  all: try (exfalso;
            match goal with
            | Hl : _ !! ?t = Some ?k, Ht : task_photo ?k = Some ?l,
              Hne : ?tid <> ?t |- _ =>
                apply Hne; exact (Hb _ _ _ _ _ Hk Hl eq_refl Ht)
            end).
  (* an older analysis, its object untouched by this step *)
  all: try (match goal with
            | Hl : _ !! _ = Some ?k, Ht : task_photo ?k = Some ?l |- _ =>
                destruct (Ha _ _ _ Hl Ht) as (p & Hp & Hnone)
            end;
            exists p; split; [|exact Hnone];
            first [ apply lookup_app_l_Some; exact Hp
                  | rewrite list_lookup_alter_ne; [exact Hp|];
                    intros ->;
                    match goal with
                    | Hl : _ !! ?t = Some ?k, Ht : task_photo ?k = Some ?l,
                      Hne : ?tid <> ?t |- _ =>
                        apply Hne; exact (Hb _ _ _ _ _ Hk Hl eq_refl Ht)
                    end ]).
Qed.

Lemma analysis_inv_run (evs : list Event) (s s' : State) :
  analysis_inv s -> run evs s = Some s' -> analysis_inv s'.
Proof.
  revert s. induction evs as [|e evs IH]; intros s Hinv Hrun.
  - cbn in Hrun. apply Some_eq_inv in Hrun. subst s'. exact Hinv.
  - cbn [run] in Hrun. destruct (step e s) as [s1|] eqn:Hstep; [|discriminate].
    exact (IH s1 (analysis_inv_step s e s1 Hinv Hstep) Hrun).
Qed.

Lemma reachable_analysis_inv (s : State) : reachable s -> analysis_inv s.
Proof. intros [evs Hrun]. exact (analysis_inv_run evs init s analysis_inv_init Hrun). Qed.

(** What a step does to a photo object that already exists. *)
Lemma step_heap_old (s : State) (e : Event) (s' : State) (ref : Ref) (p : StoredPhoto.t) :
  analysis_inv s -> step e s = Some s' -> heap s !! ref = Some p ->
  exists p', heap s' !! ref = Some p' /\
    StoredPhoto.data p' = StoredPhoto.data p /\
    (StoredPhoto.geminiAnalysis p' = StoredPhoto.geminiAnalysis p \/
     StoredPhoto.geminiAnalysis p = None /\
     exists tid r now k,
       e = EvSettle tid r now /\ pending s !! tid = Some k /\
       task_photo k = Some ref /\
       is_Some (analysis_outcome k r) /\
       StoredPhoto.geminiAnalysis p' = analysis_outcome k r).
Proof.
  intros [Ha _] H Hp.
  step_inv H; destruct s; run_callbacks.
  all: try (exists p; split; [first [exact Hp | apply lookup_app_l_Some; exact Hp]|];
            split; [reflexivity | left; reflexivity]).
  all: destruct (decide (l = ref)) as [->|Hne];
    [ destruct (Ha _ _ _ Hk eq_refl) as (q & Hq & Hnone);
      cbn [heap] in Hq; rewrite Hp in Hq; injection Hq as <-;
      eexists;
      (split; [rewrite list_lookup_alter_eq, Hp; reflexivity|]);
      (split; [reflexivity|]);
      right; split; [exact Hnone|];
      do 4 eexists; split; [reflexivity|];
      split; [exact Hk|]; split; [reflexivity|];
      split; [eexists; reflexivity | reflexivity]
    | exists p; split; [rewrite list_lookup_alter_ne by exact Hne; exact Hp|];
      split; [reflexivity | left; reflexivity] ].
Qed.

(** A photo object that a step creates has no analysis, and is the one
    the step appends to its user's list. *)
Lemma step_heap_new (s : State) (e : Event) (s' : State) (ref : Ref) (p' : StoredPhoto.t) :
  step e s = Some s' -> heap s !! ref = None -> heap s' !! ref = Some p' ->
  StoredPhoto.geminiAnalysis p' = None /\
  userPhotos s' (StoredPhoto.userId p') = userPhotos s (StoredPhoto.userId p') ++ [ref].
Proof.
  intros H Hnone Hp'.
  step_inv H; destruct s; run_callbacks.
  all: try (rewrite Hnone in Hp'; discriminate Hp').
  all: try (rewrite list_lookup_alter in Hp'; case_decide; subst; rewrite ?Hnone in Hp'; discriminate Hp').
  all: apply lookup_app_Some in Hp' as [Hp'|[Hge Hp']]; [rewrite Hnone in Hp'; discriminate|].
  all: apply list_lookup_singleton_Some in Hp' as [Hz <-].
  all: assert (ref = length heap0) as -> by lia.
  all: cbn [StoredPhoto.geminiAnalysis StoredPhoto.userId].
  all: rewrite lookup_insert_eq; split; reflexivity.
Qed.

Lemma step_heap_data (s : State) (e : Event) (s' : State) (ref : Ref) (p : StoredPhoto.t) :
  step e s = Some s' -> heap s !! ref = Some p ->
  exists p', heap s' !! ref = Some p' /\ StoredPhoto.data p' = StoredPhoto.data p.
Proof.
  intros H Hp.
  step_inv H; destruct s; run_callbacks.
  all: try (exists p; split; [first [exact Hp | apply lookup_app_l_Some; exact Hp]|];
            reflexivity).
  all: destruct (decide (l = ref)) as [->|Hne];
    [ rewrite list_lookup_alter_eq, Hp | rewrite list_lookup_alter_ne, Hp by exact Hne ];
    eexists; split; reflexivity.
Qed.

Lemma step_userPhotos (s : State) (e : Event) (s' : State) (userId : string) :
  step e s = Some s' ->
  userPhotos s' userId = userPhotos s userId \/
  userPhotos s' userId = userPhotos s userId ++ [length (heap s)].
Proof.
  intros H.
  step_inv H; destruct s; run_callbacks.
  all: try (left; reflexivity).
  all: destruct (decide (u = userId)) as [->|Hne];
    [ right; rewrite lookup_insert_eq; reflexivity
    | left; rewrite lookup_insert_ne by exact Hne; reflexivity ].
Qed.

Lemma run_userPhotos (evs : list Event) (s s' : State) (userId : string) :
  run evs s = Some s' -> userPhotos s userId `prefix_of` userPhotos s' userId.
Proof.
  revert s. induction evs as [|e evs IH]; intros s Hrun.
  - cbn in Hrun. apply Some_eq_inv in Hrun. subst s'. reflexivity.
  - cbn [run] in Hrun. destruct (step e s) as [s1|] eqn:Hstep; [|discriminate].
    transitivity (userPhotos s1 userId); [|exact (IH s1 Hrun)].
    destruct (step_userPhotos s e s1 userId Hstep) as [->| ->];
      [reflexivity | apply prefix_app_r; reflexivity].
Qed.

Lemma run_heap_data (evs : list Event) (s s' : State) (ref : Ref) (p : StoredPhoto.t) :
  run evs s = Some s' -> heap s !! ref = Some p ->
  exists p', heap s' !! ref = Some p' /\ StoredPhoto.data p' = StoredPhoto.data p.
Proof.
  revert s p. induction evs as [|e evs IH]; intros s p Hrun Hp.
  - cbn in Hrun. apply Some_eq_inv in Hrun. subst s'. exists p. split; [exact Hp|reflexivity].
  - cbn [run] in Hrun. destruct (step e s) as [s1|] eqn:Hstep; [|discriminate].
    destruct (step_heap_data s e s1 ref p Hstep Hp) as (p1 & Hp1 & Hd1).
    destruct (IH s1 p1 Hrun Hp1) as (p' & Hp' & Hd').
    exists p'. split; [exact Hp'|]. rewrite Hd'. exact Hd1.
Qed.

Lemma run_analysis_stable (evs : list Event) (s s' : State) (ref : Ref)
    (p : StoredPhoto.t) (a : string) :
  analysis_inv s -> run evs s = Some s' ->
  heap s !! ref = Some p -> StoredPhoto.geminiAnalysis p = Some a ->
  exists p', heap s' !! ref = Some p' /\ StoredPhoto.geminiAnalysis p' = Some a.
Proof.
  revert s p. induction evs as [|e evs IH]; intros s p Hinv Hrun Hp Ha.
  - cbn in Hrun. apply Some_eq_inv in Hrun. subst s'. exists p. split; assumption.
  - cbn [run] in Hrun. destruct (step e s) as [s1|] eqn:Hstep; [|discriminate].
    destruct (step_heap_old s e s1 ref p Hinv Hstep Hp) as (p1 & Hp1 & _ & [Heq|[Hnone _]]).
    + apply (IH s1 p1 (analysis_inv_step s e s1 Hinv Hstep) Hrun Hp1). congruence.
    + congruence.
Qed.

(** When the awaited call of an analysis task settles, the photo object
    of the task has no analysis yet, and the step stores the outcome in
    it; the one settling that stores nothing is [generateContent]
    resolving, which parks the task that awaits the response for the same
    object. *)
Lemma settle_analysis (s : State) (tid : nat) (r : Settled) (now : Z) (s' : State)
    (k : Task) (ref : Ref) :
  analysis_inv s -> step (EvSettle tid r now) s = Some s' ->
  pending s !! tid = Some k -> task_photo k = Some ref ->
  exists p p', heap s !! ref = Some p /\ StoredPhoto.geminiAnalysis p = None /\
    heap s' !! ref = Some p' /\
    match analysis_outcome k r with
    | Some a => StoredPhoto.geminiAnalysis p' = Some a
    | None =>
        StoredPhoto.geminiAnalysis p' = None /\
        exists userId text,
          k = GeminiGenerate ref userId /\ r = Resolved (VContent text) /\
          pending s' !! nextTask s = Some (GeminiResponse ref userId text)
    end.
Proof.
  intros [Ha _] H Hk Ht.
  destruct (Ha _ _ _ Hk Ht) as (p & Hp & Hnone).
  cbn [step] in H. rewrite Hk in H.
  destruct k as [session u | session u photo | session u | session u photo
                | l u | l u [analysis|err] | u];
    cbn [task_photo] in Ht; try discriminate Ht; injection Ht as ->.
  all: destruct r as [[photo'|text|]|error]; cbn [resume] in H; try discriminate H.
  all: apply Some_eq_inv in H; subst s'; cbn [analysis_outcome].
  all: exists p; destruct s; run_callbacks.
  all: try (eexists; split; [exact Hp|]; split; [exact Hnone|];
            split; [rewrite list_lookup_alter_eq, Hp; reflexivity|]; reflexivity).
  exists p. split; [exact Hp|]. split; [exact Hnone|]. split; [exact Hp|].
  split; [exact Hnone|]. exists u, text. split; [reflexivity|]. split; [reflexivity|].
  apply lookup_insert_eq.
Qed.

(** C8. In every reachable state: a photo object created by a step has no
    [geminiAnalysis] and is the one appended to its user's list; when the
    awaited call of an analysis of an object settles, the field of that
    object is absent and the step writes it, with the analysis text when
    [response.text()] returns it and with the error string when
    [generateContent], the response or [text()] fails (the one settling
    that writes nothing is [generateContent] resolving, after which the
    same analysis awaits the response); no other step changes the field of
    an existing object; and a [geminiAnalysis] that is present keeps its
    value in every later state. *)
Theorem analysis_written_at_most_once
    (s : State) (e : Event) (s' : State) (evs : list Event) (s'' : State) :
  reachable s -> step e s = Some s' -> run evs s' = Some s'' ->
  (forall ref p', heap s !! ref = None -> heap s' !! ref = Some p' ->
     StoredPhoto.geminiAnalysis p' = None /\
     userPhotos s' (StoredPhoto.userId p') =
       userPhotos s (StoredPhoto.userId p') ++ [ref]) /\
  (forall tid r now k ref,
     e = EvSettle tid r now -> pending s !! tid = Some k -> task_photo k = Some ref ->
     exists p p', heap s !! ref = Some p /\ StoredPhoto.geminiAnalysis p = None /\
       heap s' !! ref = Some p' /\
       match analysis_outcome k r with
       | Some a => StoredPhoto.geminiAnalysis p' = Some a
       | None =>
           StoredPhoto.geminiAnalysis p' = None /\
           exists userId text,
             k = GeminiGenerate ref userId /\ r = Resolved (VContent text) /\
             pending s' !! nextTask s = Some (GeminiResponse ref userId text)
       end) /\
  (forall ref p, heap s !! ref = Some p ->
     exists p', heap s' !! ref = Some p' /\
       (StoredPhoto.geminiAnalysis p' = StoredPhoto.geminiAnalysis p \/
        StoredPhoto.geminiAnalysis p = None /\
        exists tid r now k,
          e = EvSettle tid r now /\ pending s !! tid = Some k /\
          task_photo k = Some ref /\
          is_Some (analysis_outcome k r) /\
          StoredPhoto.geminiAnalysis p' = analysis_outcome k r)) /\
  (forall ref p' a, heap s' !! ref = Some p' ->
     StoredPhoto.geminiAnalysis p' = Some a ->
     exists p'', heap s'' !! ref = Some p'' /\
       StoredPhoto.geminiAnalysis p'' = Some a).
Proof.
  intros Hreach Hstep Hrun.
  pose proof (reachable_analysis_inv s Hreach) as Hinv.
  split; [|split; [|split]].
  - intros ref p' Hnone Hp'. exact (step_heap_new s e s' ref p' Hstep Hnone Hp').
  - intros tid r now k ref -> Hk Ht.
    exact (settle_analysis s tid r now s' k ref Hinv Hstep Hk Ht).
  - intros ref p Hp.
    destruct (step_heap_old s e s' ref p Hinv Hstep Hp) as (p' & Hp' & _ & Hcases).
    exists p'. split; assumption.
  - intros ref p' a Hp' Ha.
    exact (run_analysis_stable evs s' s'' ref p' a
             (analysis_inv_step s e s' Hinv Hstep) Hrun Hp' Ha).
Qed.

(** A run for C8: the response of the model arrives at time 5, the photo
    object has no analysis until then and the text from then on, also
    after the speech has ended. *)
Lemma analysis_written_at_most_once_witness :
  reachable analysing /\
  step (EvSettle 3%nat (Resolved VOther) 5) analysing = Some analysed /\
  run [EvSettle 4%nat (Resolved VOther) 9] analysed = Some spoken /\
  (exists p p', heap analysing !! 0%nat = Some p /\ StoredPhoto.geminiAnalysis p = None /\
     heap analysed !! 0%nat = Some p' /\
     StoredPhoto.geminiAnalysis p' = Some "Buy it.") /\
  exists p'', heap spoken !! 0%nat = Some p'' /\
    StoredPhoto.geminiAnalysis p'' = Some "Buy it.".
Proof.
  assert (Hreach : reachable analysing) by (exists snapshot; by_run).
  assert (Hstep : step (EvSettle 3%nat (Resolved VOther) 5) analysing = Some analysed)
    by by_run.
  assert (Hrun : run [EvSettle 4%nat (Resolved VOther) 9] analysed = Some spoken) by by_run.
  split; [exact Hreach|]. split; [exact Hstep|]. split; [exact Hrun|].
  destruct (analysis_written_at_most_once analysing _ analysed _ spoken Hreach Hstep Hrun)
    as (_ & Hwrite & _ & Hkeep).
  split.
  - destruct (Hwrite 3%nat (Resolved VOther) 5 (GeminiResponse 0%nat "alice" (inl "Buy it."))
                0%nat eq_refl) as (p & p' & Hp & Hnone & Hp' & Ha); [by_run | reflexivity |].
    exists p, p'. repeat split; assumption.
  - apply (Hkeep 0%nat (StoredPhoto.mk "req-1" [] 2 "alice" "image/jpeg" "photo.jpg" 0
                          (Some "Buy it."))); by_run.
Defined.

(** The failure side of C8: the model call of the same photo rejects
    instead, and the error string is what the object holds. *)
Example analysis_failure_is_stored :
  step (EvSettle 2%nat (Rejected "quota") 4)
    (after [EvSession 7%nat "s1" "alice" 0; EvButton 7%nat "alice" short_press;
            EvSettle 0%nat (Resolved (VPhoto sample_photo)) 2;
            EvSettle 1%nat (Resolved VOther) 3]) =
    Some (after [EvSession 7%nat "s1" "alice" 0; EvButton 7%nat "alice" short_press;
                 EvSettle 0%nat (Resolved (VPhoto sample_photo)) 2;
                 EvSettle 1%nat (Resolved VOther) 3;
                 EvSettle 2%nat (Rejected "quota") 4]) /\
  StoredPhoto.geminiAnalysis <$>
    heap (after [EvSession 7%nat "s1" "alice" 0; EvButton 7%nat "alice" short_press;
                 EvSettle 0%nat (Resolved (VPhoto sample_photo)) 2;
                 EvSettle 1%nat (Resolved VOther) 3;
                 EvSettle 2%nat (Rejected "quota") 4]) !! 0%nat =
    Some (Some "Error analyzing photo: quota").
Proof. split; by_run. Qed.

(** C9. Every step (session start, session stop, button press, tick, a
    call settling either way) leaves a user's photo list as it is or
    appends one reference at its end; so the list before is a prefix of
    the list after any run, and the data of every stored photo object
    stays what it was. *)
Theorem photos_append_only
    (s : State) (e : Event) (s' : State) (evs : list Event) (s'' : State)
    (userId : string) :
  step e s = Some s' -> run evs s' = Some s'' ->
  (userPhotos s' userId = userPhotos s userId \/
   exists ref, userPhotos s' userId = userPhotos s userId ++ [ref]) /\
  userPhotos s userId `prefix_of` userPhotos s'' userId /\
  (forall ref p, heap s !! ref = Some p ->
     exists p'', heap s'' !! ref = Some p'' /\
       StoredPhoto.data p'' = StoredPhoto.data p).
Proof.
  intros Hstep Hrun. split; [|split].
  - destruct (step_userPhotos s e s' userId Hstep) as [H|H]; [left|right; eexists]; exact H.
  - apply (run_userPhotos (e :: evs)). cbn [run]. rewrite Hstep. exact Hrun.
  - intros ref p Hp. apply (run_heap_data (e :: evs) s); [|exact Hp].
    cbn [run]. rewrite Hstep. exact Hrun.
Qed.

(** A run for C9: session stop and a new session start keep Alice's
    photo. *)
Lemma photos_append_only_witness :
  step (EvStop "s1" "alice" "user") spoken =
    Some (after (snapshot ++ [EvSettle 3%nat (Resolved VOther) 5;
                              EvSettle 4%nat (Resolved VOther) 9;
                              EvStop "s1" "alice" "user"])) /\
  userPhotos spoken "alice" = [0%nat] /\
  userPhotos spoken "alice" `prefix_of`
    userPhotos (after (snapshot ++ [EvSettle 3%nat (Resolved VOther) 5;
                                    EvSettle 4%nat (Resolved VOther) 9;
                                    EvStop "s1" "alice" "user";
                                    EvSession 9%nat "s3" "alice" 100])) "alice".
Proof.
  assert (Hstep : step (EvStop "s1" "alice" "user") spoken =
    Some (after (snapshot ++ [EvSettle 3%nat (Resolved VOther) 5;
                              EvSettle 4%nat (Resolved VOther) 9;
                              EvStop "s1" "alice" "user"]))) by by_run.
  split; [exact Hstep|]. split; [by_run|].
  refine (proj1 (proj2 (photos_append_only spoken _ _ [EvSession 9%nat "s3" "alice" 100] _
                          "alice" Hstep _))).
  by_run.
Defined.

(** ** The photo store *)

(** What a step does to the store: it caches one photo, or it leaves the
    lists alone and at most writes the analysis of one object. *)
Lemma step_store (s : State) (e : Event) (s' : State) :
  step e s = Some s' ->
  match cached_by s e with
  | Some (u, photo) =>
      heap s' = heap s ++ [cachedPhoto photo u] /\
      photos s' = <[u := userPhotos s u ++ [length (heap s)]]> (photos s) /\
      latestPhotoTimestamp s' =
        <[u := PhotoData.timestamp photo]> (latestPhotoTimestamp s)
  | None =>
      photos s' = photos s /\
      latestPhotoTimestamp s' = latestPhotoTimestamp s /\
      (heap s' = heap s \/
       exists l a tid r now k,
         e = EvSettle tid r now /\ pending s !! tid = Some k /\
         task_photo k = Some l /\
         heap s' = alter (StoredPhoto.set_geminiAnalysis a) l (heap s))
  end.
Proof.
  intros H.
  step_inv H; cbn [cached_by]; rewrite ?Hk; destruct s; run_callbacks;
    cbv [cachedPhoto].
  all: try (split; [reflexivity|]; split; [reflexivity|]; left; reflexivity).
  all: try (split; [reflexivity|]; split; reflexivity).
  all: split; [reflexivity|]; split; [reflexivity|]; right;
    do 6 eexists; split; [reflexivity|]; split; [exact Hk|]; split; reflexivity.
Qed.

Lemma filter_ext_elem {A} (P Q : A -> Prop) `{!forall x, Decision (P x)}
    `{!forall x, Decision (Q x)} (l : list A) :
  (forall x, x ∈ l -> (P x <-> Q x)) -> filter P l = filter Q l.
Proof.
  induction l as [|x l IH]; intros Hext; [reflexivity|].
  rewrite !filter_cons.
  assert (HPQ : P x <-> Q x) by (apply Hext; left).
  rewrite IH by (intros y Hy; apply Hext; right; exact Hy).
  destruct (decide (P x)), (decide (Q x)); tauto.
Qed.

Lemma owners_lt (h : list StoredPhoto.t) (u : string) (l : Ref) :
  l ∈ owners h u -> exists p, h !! l = Some p /\ StoredPhoto.userId p = u.
Proof.
  unfold owners. intros Hin. apply list_elem_of_filter in Hin as [Hown _].
  destruct (h !! l) as [p|]; [|discriminate Hown].
  exists p. split; [reflexivity|]. cbn in Hown. congruence.
Qed.

Lemma owners_snoc (h : list StoredPhoto.t) (p : StoredPhoto.t) (u : string) :
  owners (h ++ [p]) u =
    owners h u ++ (if decide (StoredPhoto.userId p = u) then [length h] else []).
Proof.
  unfold owners. rewrite length_app. cbn [length]. rewrite Nat.add_1_r, seq_S.
  rewrite filter_app. f_equal.
  - apply filter_ext_elem. intros l Hl. apply elem_of_seq in Hl.
    rewrite lookup_app_l by lia. reflexivity.
  - cbn [Nat.add]. rewrite filter_cons, filter_nil.
    rewrite list_lookup_middle by reflexivity. cbn.
    destruct (decide (StoredPhoto.userId p = u)) as [->|Hne];
      destruct (decide (Some _ = Some u)) as [Heq|Hneq]; try reflexivity; congruence.
Qed.

Lemma owners_alter (h : list StoredPhoto.t) (a : string) (l : Ref) (u : string) :
  owners (alter (StoredPhoto.set_geminiAnalysis a) l h) u = owners h u.
Proof.
  unfold owners. rewrite length_alter. apply filter_ext_elem. intros x _.
  rewrite list_lookup_alter. case_decide; [subst|reflexivity].
  destruct (h !! x); reflexivity.
Qed.

Lemma objects_snoc (h : list StoredPhoto.t) (refs : list Ref) (l : Ref) (p : StoredPhoto.t) :
  h !! l = Some p -> objects h (refs ++ [l]) = objects h refs ++ [p].
Proof. intros H. unfold objects. rewrite omap_app. cbn. rewrite H. reflexivity. Qed.

Lemma objects_heap_snoc (h : list StoredPhoto.t) (p : StoredPhoto.t) (refs : list Ref) :
  Forall (fun l => (l < length h)%nat) refs -> objects (h ++ [p]) refs = objects h refs.
Proof.
  intros Hall. unfold objects. apply list_omap_ext.
  induction Hall as [|l refs Hl _ IH]; constructor; [|exact IH].
  rewrite lookup_app_l by exact Hl. reflexivity.
Qed.

Lemma owners_valid (h : list StoredPhoto.t) (u : string) :
  Forall (fun l => (l < length h)%nat) (owners h u).
Proof.
  apply Forall_forall. intros l Hl. apply owners_lt in Hl as (p & Hp & _).
  exact (lookup_lt_Some _ _ _ Hp).
Qed.

(** The objects at a user's addresses are the user's objects. *)
Lemma objects_owners (h : list StoredPhoto.t) (u : string) :
  objects h (owners h u) = filter (fun p => StoredPhoto.userId p = u) h.
Proof.
  induction h as [|p h IH] using rev_ind; [reflexivity|].
  rewrite owners_snoc, filter_app, filter_cons, filter_nil.
  destruct (decide (StoredPhoto.userId p = u)) as [Hu|Hu].
  - rewrite (objects_snoc _ _ _ p) by (apply list_lookup_middle; reflexivity).
    rewrite objects_heap_snoc by apply owners_valid. rewrite IH. reflexivity.
  - rewrite !app_nil_r. rewrite objects_heap_snoc by apply owners_valid. exact IH.
Qed.

Lemma userPhotos_insert (s : State) (m : gmap string (list Ref)) (u u' : string)
    (refs : list Ref) :
  default [] (<[u := refs]> m !! u') = if decide (u = u') then refs else default [] (m !! u').
Proof.
  destruct (decide (u = u')) as [->|Hne];
    [rewrite lookup_insert_eq | rewrite lookup_insert_ne by exact Hne]; reflexivity.
Qed.

Lemma store_inv_init : store_inv init.
Proof.
  split; [|split]; intros u; cbv [userPhotos init photos latestPhotoTimestamp heap];
    rewrite ?lookup_empty; try reflexivity; discriminate.
Qed.

Lemma store_inv_step (s : State) (e : Event) (s' : State) :
  store_inv s -> step e s = Some s' -> store_inv s'.
Proof.
  intros (Hown & Hne & Hlatest) Hstep.
  pose proof (step_store s e s' Hstep) as Hst.
  destruct (cached_by s e) as [[u0 photo]|].
  - destruct Hst as (Hh & Hp & Hl). unfold store_inv, userPhotos in *.
    rewrite Hh, Hp, Hl. repeat split; intros u.
    + rewrite owners_snoc. cbn [cachedPhoto StoredPhoto.userId].
      destruct (decide (u0 = u)) as [->|Hu].
      * rewrite lookup_insert_eq. cbn. rewrite Hown. reflexivity.
      * rewrite lookup_insert_ne by exact Hu. rewrite app_nil_r. apply Hown.
    + destruct (decide (u0 = u)) as [->|Hu].
      * rewrite lookup_insert_eq. intros Heq. apply Some_eq_inv in Heq.
        apply app_eq_nil in Heq as [_ Heq]. discriminate Heq.
      * rewrite lookup_insert_ne by exact Hu. apply Hne.
    + destruct (decide (u0 = u)) as [->|Hu].
      * rewrite !lookup_insert_eq. cbn [from_option id]. rewrite last_snoc. cbn.
        rewrite list_lookup_middle by reflexivity. reflexivity.
      * rewrite !lookup_insert_ne by exact Hu. rewrite Hlatest.
        destruct (last (default [] (photos s !! u))) as [l|] eqn:Hlast; [|reflexivity].
        cbn. rewrite lookup_app_l; [reflexivity|].
        apply last_Some_elem_of in Hlast. rewrite Hown in Hlast.
        apply owners_lt in Hlast as (p & Hp' & _). exact (lookup_lt_Some _ _ _ Hp').
  - destruct Hst as (Hp & Hl & [Hh | (l & a & _ & _ & _ & _ & _ & _ & _ & Hh)]);
      unfold store_inv, userPhotos in *; rewrite Hh, Hp, Hl.
    + repeat split; assumption.
    + repeat split; intros u.
      * rewrite owners_alter. apply Hown.
      * apply Hne.
      * rewrite Hlatest. destruct (last (default [] (photos s !! u))) as [x|]; [|reflexivity].
        cbn. rewrite list_lookup_alter. case_decide; [subst|reflexivity].
        destruct (heap s !! x); reflexivity.
Qed.

Lemma task_inv_init : task_inv init.
Proof. split; intros tid k; cbn; rewrite lookup_empty; discriminate. Qed.

Lemma task_inv_step (s : State) (e : Event) (s' : State) :
  task_inv s -> step e s = Some s' -> task_inv s'.
Proof.
  intros [Hlt Hown] H.
  step_inv H; destruct s; unfold task_inv in *; run_callbacks.
  all: split; [intros tid1 k1 Hl | intros tid1 k1 l1 Hl Ht].
  all: pending_cases; subst; cbn [task_photo task_user] in *; try discriminate.
  all: try lia.
  all: try (match goal with Hl : _ !! _ = Some _ |- (_ < _)%nat =>
              specialize (Hlt _ _ Hl); cbn in Hlt; lia end).
  all: eauto.
  all: repeat match goal with H : Some _ = Some _ |- _ => injection H as H; subst end.
  all: try (rewrite list_lookup_middle by reflexivity; reflexivity).
  all: try (match goal with
            | Hl : _ !! _ = Some ?k, Ht : task_photo ?k = Some ?l |- _ =>
                specialize (Hown _ _ _ Hl Ht)
            end).
  all: try (specialize (Hown _ _ _ Hk eq_refl); cbn [task_user] in Hown).
  all: try assumption.
  all: try (match goal with
            | Ho : StoredPhoto.userId <$> ?h !! ?l = Some ?u
              |- StoredPhoto.userId <$> (?h ++ _) !! ?l = Some ?u =>
                destruct (h !! l) as [q|] eqn:Hq; [|discriminate Ho];
                rewrite (lookup_app_l_Some _ _ _ _ Hq); exact Ho
            end).
  all: try (rewrite list_lookup_alter; case_decide; [subst|assumption];
            match goal with |- _ <$> (_ <$> ?x) = _ => destruct x; [cbn in *; assumption|discriminate] end).
Qed.

Lemma store_inv_run (evs : list Event) (s s' : State) :
  store_inv s -> run evs s = Some s' -> store_inv s'.
Proof.
  revert s. induction evs as [|e evs IH]; intros s Hinv Hrun.
  - cbn in Hrun. apply Some_eq_inv in Hrun. subst s'. exact Hinv.
  - cbn [run] in Hrun. destruct (step e s) as [s1|] eqn:Hstep; [|discriminate].
    exact (IH s1 (store_inv_step s e s1 Hinv Hstep) Hrun).
Qed.

Lemma task_inv_run (evs : list Event) (s s' : State) :
  task_inv s -> run evs s = Some s' -> task_inv s'.
Proof.
  revert s. induction evs as [|e evs IH]; intros s Hinv Hrun.
  - cbn in Hrun. apply Some_eq_inv in Hrun. subst s'. exact Hinv.
  - cbn [run] in Hrun. destruct (step e s) as [s1|] eqn:Hstep; [|discriminate].
    exact (IH s1 (task_inv_step s e s1 Hinv Hstep) Hrun).
Qed.

Lemma reachable_store_inv (s : State) : reachable s -> store_inv s.
Proof. intros [evs Hrun]. exact (store_inv_run evs init s store_inv_init Hrun). Qed.

Lemma reachable_task_inv (s : State) : reachable s -> task_inv s.
Proof. intros [evs Hrun]. exact (task_inv_run evs init s task_inv_init Hrun). Qed.

Lemma stored_owned (s : State) (u : string) :
  store_inv s -> stored s u = filter (fun p => StoredPhoto.userId p = u) (heap s).
Proof. intros (Hown & _). unfold stored. rewrite Hown. apply objects_owners. Qed.

Lemma last_stored (s : State) (u : string) :
  store_inv s ->
  last (stored s u) = last (userPhotos s u) ≫= fun l => heap s !! l.
Proof.
  intros (Hown & _). unfold stored.
  destruct (last (userPhotos s u)) as [l|] eqn:Hlast.
  - pose proof (last_Some_elem_of _ _ Hlast) as Hin. rewrite Hown in Hin.
    apply owners_lt in Hin as (p & Hp & _).
    apply last_Some in Hlast as [refs ->].
    rewrite (objects_snoc _ _ _ p Hp), last_snoc. cbn. rewrite Hp. reflexivity.
  - apply last_None in Hlast. rewrite Hlast. reflexivity.
Qed.

Lemma stored_length (s : State) (u : string) :
  store_inv s -> length (stored s u) = length (userPhotos s u).
Proof.
  intros (Hown & _). unfold stored, objects. rewrite Hown.
  pose proof (owners_valid (heap s) u) as Hall.
  induction Hall as [|l refs Hl _ IH]; [reflexivity|].
  cbn. destruct (lookup_lt_is_Some_2 _ _ Hl) as [p ->]. cbn. f_equal. exact IH.
Qed.

(** X1. In every reachable state a user's photo list holds the addresses
    of exactly the photo objects whose [userId] is that user, in order of
    creation: the array the routes read is the user's part of the heap,
    every reference in it points to an object, and no list is empty. *)
Theorem photo_store_partitioned (s : State) (u : string) :
  reachable s ->
  userPhotos s u = owners (heap s) u /\
  stored s u = filter (fun p => StoredPhoto.userId p = u) (heap s) /\
  length (stored s u) = length (userPhotos s u) /\
  photos s !! u <> Some [].
Proof.
  intros Hreach. pose proof (reachable_store_inv s Hreach) as Hinv.
  split; [apply Hinv|]. split; [apply stored_owned, Hinv|].
  split; [apply stored_length, Hinv | apply Hinv].
Qed.

(** A run for X1: Alice's array after her short press. *)
Lemma photo_store_partitioned_witness :
  reachable spoken /\
  stored spoken "alice" = filter (fun p => StoredPhoto.userId p = "alice") (heap spoken).
Proof.
  assert (H : reachable spoken).
  { exists (snapshot ++ [EvSettle 3%nat (Resolved VOther) 5;
                         EvSettle 4%nat (Resolved VOther) 9]). by_run. }
  split; [exact H|]. exact (proj1 (proj2 (photo_store_partitioned spoken "alice" H))).
Defined.

(** X2. In every reachable state [latestPhotoTimestamp] holds, for each
    user, the timestamp of the photo last in the user's list, and has no
    entry exactly when [photos] has none; it is the timestamp that
    [/api/latest-photo] reports. *)
Theorem latest_timestamp_is_last_photo (s : State) (u : string) :
  reachable s ->
  latestPhotoTimestamp s !! u = StoredPhoto.timestamp <$> last (stored s u) /\
  (latestPhotoTimestamp s !! u = None <-> photos s !! u = None) /\
  (js_truthy (Some u) = true ->
   api_latest_photo s (Some u) =
     match last (stored s u), latestPhotoTimestamp s !! u with
     | Some latestPhoto, Some t =>
         json 200 (JLatestPhoto (StoredPhoto.requestId latestPhoto) t true)
     | _, _ => json 404 (JError "No photo available")
     end).
Proof.
  intros Hreach. pose proof (reachable_store_inv s Hreach) as Hinv.
  assert (Hlatest : latestPhotoTimestamp s !! u =
                    StoredPhoto.timestamp <$> last (stored s u)).
  { rewrite (last_stored s u Hinv). destruct Hinv as (_ & _ & Hl). rewrite Hl.
    destruct (last (userPhotos s u)); reflexivity. }
  split; [exact Hlatest|]. split.
  - rewrite Hlatest. pose proof (stored_length s u Hinv) as Hlen.
    destruct Hinv as (_ & Hne & _). specialize (Hne u). unfold userPhotos in Hlen.
    destruct (stored s u) as [|p ps] eqn:Hst using rev_ind;
      destruct (photos s !! u) as [[|l refs]|] eqn:Hp; cbn in Hlen;
      rewrite ?length_app in Hlen; cbn in Hlen; try lia; try congruence.
    + split; reflexivity.
    + rewrite last_snoc. split; discriminate.
  - intros Hu. unfold api_latest_photo. rewrite Hu. cbn [negb default from_option id].
    rewrite Hlatest. destruct (last (stored s u)); reflexivity.
Qed.

(** A run for X2: after the streamed photo of Alice is cached. *)
Lemma latest_timestamp_is_last_photo_witness :
  reachable confirmed /\
  latestPhotoTimestamp confirmed !! "alice" =
    StoredPhoto.timestamp <$> last (stored confirmed "alice").
Proof.
  assert (H : reachable confirmed).
  { exists (arming ++ [EvTick 7%nat "alice" 1;
                       EvSettle 0%nat (Resolved (VPhoto sample_photo)) 2;
                       EvSettle 1%nat (Resolved VOther) 5]). by_run. }
  split; [exact H|]. exact (proj1 (latest_timestamp_is_last_photo confirmed "alice" H)).
Defined.

Lemma objects_alter_notin (h : list StoredPhoto.t) (a : string) (l : Ref) (refs : list Ref) :
  l ∉ refs -> objects (alter (StoredPhoto.set_geminiAnalysis a) l h) refs = objects h refs.
Proof.
  intros Hnotin. unfold objects. apply list_omap_ext.
  induction refs as [|x refs IH]; constructor.
  - rewrite list_lookup_alter_ne; [reflexivity|]. intros ->. apply Hnotin. left.
  - apply IH. intros Hin. apply Hnotin. right. exact Hin.
Qed.

(** Task ids grow, and a step removes no parked task but the one it
    settles. *)
Lemma parked_tasks_are_kept (s : State) (e : Event) (s' : State) :
  reachable s -> step e s = Some s' ->
  (nextTask s <= nextTask s')%nat /\
  (forall tid k, pending s' !! tid = Some k -> (tid < nextTask s')%nat) /\
  (forall tid k, pending s !! tid = Some k ->
     (exists r now, e = EvSettle tid r now) \/ pending s' !! tid = Some k).
Proof.
  intros Hreach H.
  pose proof (reachable_task_inv s Hreach) as Hinv.
  pose proof (task_inv_step s e s' Hinv H) as [Hlt' _].
  destruct Hinv as [Hlt _].
  split; [|split; [exact Hlt'|]].
  - step_inv H; destruct s; run_callbacks; lia.
  - intros tid1 k1 Hl. specialize (Hlt _ _ Hl).
    step_inv H; destruct s; run_callbacks; cbn [nextTask pending] in *.
    all: try (right; exact Hl).
    all: try (right; rewrite lookup_insert_ne by lia; exact Hl).
    all: destruct (decide (tid = tid1)) as [->|Hne]; [left; eauto|right].
    all: rewrite ?lookup_insert_ne by lia; rewrite lookup_delete_ne by exact Hne; exact Hl.
Qed.

(** X3. When the confirmation sound of a capture settles, resolved or
    rejected, on the button path or the tick path, [cachePhoto] runs: one
    object with the photo's data, the user's id and no analysis is
    created, its address is appended to the user's list, the user's
    latest timestamp becomes the photo's, and exactly one
    [generateContent] call is issued, for that object. A failed sound
    does not lose the photo. *)
Theorem photo_cached_whatever_the_sound
    (s : State) (tid : nat) (session : Session) (userId : string)
    (photo : PhotoData.t) (r : Settled) (now : Z) :
  pending s !! tid = Some (ButtonShutter session userId photo) \/
  pending s !! tid = Some (StreamShutter session userId photo) ->
  exists s', step (EvSettle tid r now) s = Some s' /\
    heap s' = heap s ++ [cachedPhoto photo userId] /\
    userPhotos s' userId = userPhotos s userId ++ [length (heap s)] /\
    latestPhotoTimestamp s' !! userId = Some (PhotoData.timestamp photo) /\
    pending s' !! nextTask s = Some (GeminiGenerate (length (heap s)) userId) /\
    filter is_generate (emitted s s') = [AGenerateContent (length (heap s)) (nextTask s)].
Proof.
  intros Hk. cbn [step].
  destruct Hk as [Hk|Hk]; rewrite Hk; cbn [resume]; (eexists; split; [reflexivity|]).
  all: destruct s, r; run_callbacks; cbv [cachedPhoto]; rewrite !lookup_insert_eq.
  all: repeat (split; [reflexivity|]).
  all: erewrite emitted_app; [|cbn [trace]; rewrite <- !app_assoc; reflexivity].
  all: reflexivity.
Qed.

(** A run for X3: the sound of Alice's streamed photo fails, the photo is
    cached all the same. *)
Lemma photo_cached_whatever_the_sound_witness :
  pending confirming !! 1%nat = Some (StreamShutter 7%nat "alice" sample_photo) /\
  exists s', step (EvSettle 1%nat (Rejected "speaker busy") 5) confirming = Some s' /\
    heap s' = [cachedPhoto sample_photo "alice"] /\
    userPhotos s' "alice" = [0%nat].
Proof.
  assert (Hk : pending confirming !! 1%nat = Some (StreamShutter 7%nat "alice" sample_photo))
    by by_run.
  split; [exact Hk|].
  destruct (photo_cached_whatever_the_sound confirming 1%nat 7%nat "alice" sample_photo
              (Rejected "speaker busy") 5 (or_intror Hk))
    as (s' & Hstep & Hh & Hp & _).
  exists s'. split; [exact Hstep|]. split; [rewrite Hh | rewrite Hp]; by_run.
Defined.

Lemma cached_by_user (s : State) (e : Event) (u : string) (photo : PhotoData.t) :
  cached_by s e = Some (u, photo) -> event_user s e = Some u.
Proof.
  destruct e as [| | | |tid r now]; cbn; try discriminate.
  destruct (pending s !! tid) as [[]|]; cbn; try discriminate; congruence.
Qed.

(** X4. A callback segment that runs for one user leaves every other
    user's entries in [isStreamingPhotos], [nextPhotoTime], [sessions],
    [photos] and [latestPhotoTimestamp] as they are, and the other users'
    photo objects too, their analysis included. *)
Theorem users_are_independent (s : State) (e : Event) (s' : State) (user : string) :
  reachable s -> step e s = Some s' -> event_user s e <> Some user ->
  isStreamingPhotos s' !! user = isStreamingPhotos s !! user /\
  nextPhotoTime s' !! user = nextPhotoTime s !! user /\
  sessions s' !! user = sessions s !! user /\
  photos s' !! user = photos s !! user /\
  latestPhotoTimestamp s' !! user = latestPhotoTimestamp s !! user /\
  stored s' user = stored s user.
Proof.
  intros Hreach H Huser.
  pose proof (reachable_store_inv s Hreach) as Hstore.
  pose proof (reachable_task_inv s Hreach) as [_ Htask].
  pose proof (step_store s e s' H) as Hst.
  assert (Hflags : isStreamingPhotos s' !! user = isStreamingPhotos s !! user /\
                   nextPhotoTime s' !! user = nextPhotoTime s !! user /\
                   sessions s' !! user = sessions s !! user).
  { clear Hst Hstore Htask Hreach.
    step_inv H; cbn [event_user] in Huser; rewrite ?Hk in Huser; cbn [fmap option_fmap option_map task_user] in Huser;
      destruct s; run_callbacks.
    all: repeat split; try reflexivity.
    all: rewrite ?lookup_insert_ne, ?lookup_delete_ne by congruence; reflexivity. }
  destruct Hflags as (Hf1 & Hf2 & Hf3).
  repeat (split; [assumption|]).
  destruct (cached_by s e) as [[u0 photo]|] eqn:Hc.
  - destruct Hst as (Hh & Hp & Hl).
    assert (Hne : u0 <> user) by (apply cached_by_user in Hc; congruence).
    unfold stored, userPhotos. rewrite Hh, Hp, Hl.
    rewrite !lookup_insert_ne by exact Hne. repeat split.
    apply objects_heap_snoc. destruct Hstore as (Hown & _).
    fold (userPhotos s user). rewrite Hown. apply owners_valid.
  - destruct Hst as (Hp & Hl & [Hh | (l & a & tid & r & now & k & -> & Hk & Hph & Hh)]);
      unfold stored, userPhotos; rewrite Hh, Hp, Hl; repeat split.
    apply objects_alter_notin. fold (userPhotos s user).
    destruct Hstore as (Hown & _). rewrite Hown. intros Hin.
    apply owners_lt in Hin as (p & Hp' & Hpu).
    specialize (Htask _ _ _ Hk Hph). rewrite Hp' in Htask. cbn in Htask.
    apply Huser. cbn [event_user]. rewrite Hk. cbn. congruence.
Qed.

(** A run for X4: Bob's long press while Alice's capture is in flight. *)
Lemma users_are_independent_witness :
  reachable capturing /\
  step (EvButton 8%nat "bob" long_press) capturing = Some with_bob /\
  nextPhotoTime with_bob !! "alice" = nextPhotoTime capturing !! "alice" /\
  stored with_bob "alice" = stored capturing "alice".
Proof.
  assert (H : reachable capturing) by (exists (arming ++ [EvTick 7%nat "alice" 1]); by_run).
  assert (Hstep : step (EvButton 8%nat "bob" long_press) capturing = Some with_bob) by by_run.
  split; [exact H|]. split; [exact Hstep|].
  destruct (users_are_independent capturing _ with_bob "alice" H Hstep)
    as (_ & Hn & _ & _ & _ & Hst).
  - cbn. discriminate.
  - split; [exact Hn | exact Hst].
Defined.

(** ** Runs *)

Lemma step_sessions (s : State) (e : Event) (s' : State) (user : string) :
  step e s = Some s' ->
  sessions s' !! user =
    match e with
    | EvSession session _ u' _ =>
        if bool_decide (u' = user) then Some session else sessions s !! user
    | EvStop _ u' _ => if bool_decide (u' = user) then None else sessions s !! user
    | _ => sessions s !! user
    end.
Proof.
  intros H. step_inv H; destruct s; run_callbacks; try reflexivity.
  all: case_bool_decide; subst;
    rewrite ?lookup_insert_eq, ?lookup_delete_eq,
            ?lookup_insert_ne, ?lookup_delete_ne by assumption; reflexivity.
Qed.

Lemma run_sessions (evs : list Event) (s s' : State) (user : string) :
  run evs s = Some s' ->
  sessions s' !! user =
    match last_boundary user evs with
    | Some b => b
    | None => sessions s !! user
    end.
Proof.
  revert s. induction evs as [|e evs IH]; intros s Hrun.
  - cbn in Hrun. apply Some_eq_inv in Hrun. subst s'. reflexivity.
  - cbn [run] in Hrun. destruct (step e s) as [s1|] eqn:Hstep; [|discriminate].
    rewrite (IH s1 Hrun). cbn [last_boundary].
    destruct (last_boundary user evs) as [b|]; [reflexivity|].
    rewrite (step_sessions s e s1 user Hstep).
    destruct e; try reflexivity; case_bool_decide; reflexivity.
Qed.

(** X5. After any run the [sessions] entry of a user is decided by the
    user's last session start or stop in the run: the session of the
    start, or no entry after a stop; without either it is what it was.
    [/api/test-audio] therefore speaks on the session started last and
    answers 404 after a stop. *)
Theorem sessions_follow_last_boundary
    (evs : list Event) (s s' : State) (user : string) :
  run evs s = Some s' ->
  sessions s' !! user =
    match last_boundary user evs with
    | Some b => b
    | None => sessions s !! user
    end /\
  (js_truthy (Some user) = true ->
   forall b, last_boundary user evs = Some b ->
     api_test_audio s' (Some user) =
       match b with
       | Some session => inr session
       | None => inl (json 404 (JError "No active session"))
       end).
Proof.
  intros Hrun. pose proof (run_sessions evs s s' user Hrun) as Hs.
  split; [exact Hs|]. intros Hu b Hb. rewrite Hb in Hs.
  unfold api_test_audio. rewrite Hu. cbn [negb default from_option id].
  rewrite Hs. destruct b; reflexivity.
Qed.

(** A run for X5: start, stop, start again with session 9. *)
Lemma sessions_follow_last_boundary_witness :
  run (arming ++ [EvStop "s1" "alice" "user"; EvSession 9%nat "s3" "alice" 100]) init =
    Some (after (arming ++ [EvStop "s1" "alice" "user"; EvSession 9%nat "s3" "alice" 100])) /\
  api_test_audio
    (after (arming ++ [EvStop "s1" "alice" "user"; EvSession 9%nat "s3" "alice" 100]))
    (Some "alice") = inr 9%nat.
Proof.
  assert (Hrun : run (arming ++ [EvStop "s1" "alice" "user";
                                 EvSession 9%nat "s3" "alice" 100]) init =
    Some (after (arming ++ [EvStop "s1" "alice" "user"; EvSession 9%nat "s3" "alice" 100])))
    by by_run.
  split; [exact Hrun|].
  exact (proj2 (sessions_follow_last_boundary _ _ _ "alice" Hrun) eq_refl
           (Some 9%nat) eq_refl).
Defined.

Lemma step_long_press (s : State) (e : Event) (s' : State) (user : string) :
  step e s = Some s' -> long_press_of user e = true ->
  isStreamingPhotos s' !! user = Some (negb (truthy (isStreamingPhotos s !! user))).
Proof.
  intros H Hl. destruct e as [| |session u button| |]; cbn in Hl; try discriminate.
  apply andb_prop in Hl as [Hu Hp]. apply bool_decide_eq_true_1 in Hu. subst u.
  cbn [step] in H. unfold onButtonPress in H. rewrite Hp in H.
  apply Some_eq_inv in H. subst s'. destruct s. run_callbacks. apply lookup_insert_eq.
Qed.

Lemma step_boundary (s : State) (e : Event) (s' : State) (user : string) :
  step e s = Some s' -> session_boundary_of user e = true ->
  isStreamingPhotos s' !! user = Some false.
Proof.
  intros H Hb. destruct e; cbn in Hb; try discriminate;
    apply bool_decide_eq_true_1 in Hb; subst;
    cbn [step] in H; apply Some_eq_inv in H; subst s';
    destruct s; run_callbacks; apply lookup_insert_eq.
Qed.

Lemma long_press_not_boundary (user : string) (e : Event) :
  long_press_of user e = true -> session_boundary_of user e = false.
Proof. destruct e; cbn; congruence. Qed.

Lemma run_flag_parity (evs : list Event) (s s' : State) (user : string) :
  run evs s = Some s' ->
  Forall (fun e => session_boundary_of user e = false) evs ->
  truthy (isStreamingPhotos s' !! user) =
    xorb (truthy (isStreamingPhotos s !! user)) (Nat.odd (long_presses user evs)).
Proof.
  revert s. induction evs as [|e evs IH]; intros s Hrun Hall.
  - cbn in Hrun. apply Some_eq_inv in Hrun. subst s'. cbn. rewrite xorb_false_r. reflexivity.
  - cbn [run] in Hrun. destruct (step e s) as [s1|] eqn:Hstep; [|discriminate].
    inversion Hall as [|? ? Hb Hall']; subst.
    rewrite (IH s1 Hrun Hall'). unfold long_presses. rewrite filter_cons.
    destruct (decide (long_press_of user e = true)) as [Hl|Hl].
    + rewrite (step_long_press s e s1 user Hstep Hl). cbn [length truthy from_option id].
      rewrite Nat.odd_succ, <- Nat.negb_odd.
      destruct (truthy (isStreamingPhotos s !! user)), (Nat.odd _); reflexivity.
    + apply not_true_is_false in Hl.
      rewrite (step_isStreaming_frame s e s1 user Hstep Hl Hb). reflexivity.
Qed.

(** X6. Over a run without session start or stop of the user, the truth
    value of the user's [isStreamingPhotos] entry changes exactly when
    the number of the user's long presses in the run is odd; right after
    a session start or stop the entry is [true] exactly for an odd number
    of long presses since. Ticks, short presses, settling calls and other
    users do not count. *)
Theorem flag_is_parity_of_long_presses
    (b : Event) (evs : list Event) (s s' : State) (user : string) :
  Forall (fun e => session_boundary_of user e = false) evs ->
  (run evs s = Some s' ->
   truthy (isStreamingPhotos s' !! user) =
     xorb (truthy (isStreamingPhotos s !! user)) (Nat.odd (long_presses user evs))) /\
  (session_boundary_of user b = true -> run (b :: evs) s = Some s' ->
   isStreamingPhotos s' !! user = Some (Nat.odd (long_presses user evs))).
Proof.
  intros Hall. split.
  - intros Hrun. exact (run_flag_parity evs s s' user Hrun Hall).
  - intros Hb Hrun. cbn [run] in Hrun.
    destruct (step b s) as [s1|] eqn:Hstep; [|discriminate].
    pose proof (run_flag_parity evs s1 s' user Hrun Hall) as Hpar.
    rewrite (step_boundary s b s1 user Hstep Hb) in Hpar. cbn in Hpar.
    assert (Hsome : is_Some (isStreamingPhotos s' !! user)).
    { clear Hpar. revert s1 Hstep Hrun.
      assert (Hkeep : forall evs s1, is_Some (isStreamingPhotos s1 !! user) ->
                run evs s1 = Some s' -> is_Some (isStreamingPhotos s' !! user)).
      { clear. induction evs as [|e evs IH]; intros s1 Hs Hrun.
        - cbn in Hrun. apply Some_eq_inv in Hrun. subst. exact Hs.
        - cbn [run] in Hrun. destruct (step e s1) as [s2|] eqn:Hstep; [|discriminate].
          apply (IH s2); [|exact Hrun].
          destruct (long_press_of user e) eqn:Hl;
            [rewrite (step_long_press s1 e s2 user Hstep Hl); eauto|].
          destruct (session_boundary_of user e) eqn:Hb;
            [rewrite (step_boundary s1 e s2 user Hstep Hb); eauto|].
          rewrite (step_isStreaming_frame s1 e s2 user Hstep Hl Hb). exact Hs. }
      intros s1 Hstep Hrun. apply (Hkeep evs s1); [|exact Hrun].
      rewrite (step_boundary s b s1 user Hstep Hb). eauto. }
    destruct Hsome as [x Hx]. rewrite Hx in *. cbn in Hpar. congruence.
Qed.

(** A run for X6: three long presses and a tick after the start. *)
Lemma flag_is_parity_of_long_presses_witness :
  Forall (fun e => session_boundary_of "alice" e = false) toggling /\
  isStreamingPhotos toggled !! "alice" = Some true.
Proof.
  assert (H : Forall (fun e => session_boundary_of "alice" e = false) toggling).
  { repeat (constructor; [reflexivity|]). constructor. }
  split; [exact H|].
  rewrite (proj2 (flag_is_parity_of_long_presses (EvSession 7%nat "s1" "alice" 0)
                    toggling init toggled "alice" H) eq_refl); by_run.
Defined.

Lemma step_nextPhotoTime_cases (s : State) (e : Event) (s' : State) (user : string) :
  step e s = Some s' -> resets_cooldown user s e = false ->
  nextPhotoTime s' !! user = nextPhotoTime s !! user \/
  exists session now,
    e = EvTick session user now /\ tick_due s user now /\
    nextPhotoTime s' !! user = Some (now + coolDownInterval).
Proof.
  intros H Hr.
  step_inv H; cbn [resets_cooldown] in Hr; rewrite ?Hk in Hr;
    destruct s; run_callbacks.
  all: try (left; reflexivity).
  all: try (case_bool_decide; [discriminate Hr|]; left;
            rewrite ?lookup_insert_ne, ?lookup_delete_ne by assumption; reflexivity).
  destruct (decide (u = user)) as [->|Hne].
  - right. do 2 eexists. split; [reflexivity|]. split; [exact Hdue|]. apply lookup_insert_eq.
  - left. rewrite lookup_insert_ne by exact Hne. reflexivity.
Qed.

Lemma run_avoiding_floor (evs : list Event) (s s' : State) (user : string) (floor : Z) :
  run_avoiding (resets_cooldown user) evs s = Some s' ->
  (exists n, nextPhotoTime s !! user = Some n /\ n >= floor) ->
  exists n, nextPhotoTime s' !! user = Some n /\ n >= floor.
Proof.
  revert s. induction evs as [|e evs IH]; intros s Hrun Hn.
  - cbn in Hrun. apply Some_eq_inv in Hrun. subst s'. exact Hn.
  - cbn [run_avoiding] in Hrun.
    destruct (resets_cooldown user s e) eqn:Hr; [discriminate|].
    destruct (step e s) as [s1|] eqn:Hstep; [|discriminate].
    apply (IH s1 Hrun).
    destruct (step_nextPhotoTime_cases s e s1 user Hstep Hr)
      as [Heq | (session & now & _ & [_ Hgt] & Hset)].
    + rewrite Heq. exact Hn.
    + destruct Hn as (n & Hn & Hge). rewrite Hn in Hgt. cbn in Hgt.
      exists (now + coolDownInterval). split; [exact Hset|]. unfold coolDownInterval. lia.
Qed.

(** X7. After a tick of a user has fired at [t1], and as long as no
    session start or stop of the user and no completion of a successful
    tick capture of the user is handled, the user's [nextPhotoTime] stays
    at [t1 + coolDownInterval] or later, whatever else happens (failed
    captures, hanging calls, later firings, button presses): no tick of
    the user fires at a time up to [t1 + coolDownInterval]. *)
Theorem ticks_back_off
    (s : State) (session : Session) (user : string) (t1 : Z)
    (evs : list Event) (s1 s2 : State) :
  tick_due s user t1 ->
  step (EvTick session user t1) s = Some s1 ->
  run_avoiding (resets_cooldown user) evs s1 = Some s2 ->
  (exists n, nextPhotoTime s2 !! user = Some n /\ n >= t1 + coolDownInterval) /\
  (forall session' t2, t2 <= t1 + coolDownInterval ->
     step (EvTick session' user t2) s2 = Some s2).
Proof.
  intros Hdue Hstep Hrun.
  assert (Hfloor : exists n, nextPhotoTime s2 !! user = Some n /\ n >= t1 + coolDownInterval).
  { apply (run_avoiding_floor evs s1 s2 user _ Hrun).
    destruct (onInterval_fire_spec s session user t1 Hdue) as (s1' & Hstep' & _ & Hn & _).
    rewrite Hstep in Hstep'. apply Some_eq_inv in Hstep'. subst s1'.
    exists (t1 + coolDownInterval). rewrite Hn, lookup_insert_eq. split; [reflexivity|lia]. }
  split; [exact Hfloor|].
  intros session' t2 Hle. apply onInterval_idle. intros [_ Hgt].
  destruct Hfloor as (n & Hn & Hge). rewrite Hn in Hgt. cbn in Hgt. lia.
Qed.

(** A run for X7: the capture fails at 5000, a tick at 20000 does
    nothing, and neither does the tick at 30001. *)
Lemma ticks_back_off_witness :
  tick_due armed "alice" 1 /\
  run_avoiding (resets_cooldown "alice") backing_off capturing = Some backed_off /\
  step (EvTick 7%nat "alice" 30001) backed_off = Some backed_off.
Proof.
  assert (Hdue : tick_due armed "alice" 1) by (split; by_run).
  assert (Hstep : step (EvTick 7%nat "alice" 1) armed = Some capturing) by by_run.
  assert (Hrun : run_avoiding (resets_cooldown "alice") backing_off capturing =
                 Some backed_off) by by_run.
  split; [exact Hdue|]. split; [exact Hrun|].
  apply (proj2 (ticks_back_off armed 7%nat "alice" 1 backing_off capturing backed_off
                  Hdue Hstep Hrun)).
  unfold coolDownInterval. lia.
Defined.

(** ** Accounting over the trace *)

Lemma generated_step (s : State) (e : Event) (s' : State) :
  step e s = Some s' ->
  generated (trace s) = seq 0 (length (heap s)) ->
  generated (trace s') = seq 0 (length (heap s')).
Proof.
  intros H Hg.
  step_inv H; destruct s; run_callbacks; unfold generated in *.
  all: rewrite ?omap_app, ?length_app, ?length_alter; cbn [omap list_omap length];
    rewrite ?app_nil_r, ?Nat.add_1_r, ?seq_S; rewrite Hg; reflexivity.
Qed.

(** X8. In every reachable state the [generateContent] calls issued so
    far are, in order, one for each photo object in order of creation:
    every cached photo is sent to the analysis exactly once, and nothing
    else is. *)
Theorem every_photo_analysed_once (s : State) :
  reachable s ->
  generated (trace s) = seq 0 (length (heap s)).
Proof.
  intros [evs Hrun].
  assert (Hgen : forall evs s0, generated (trace s0) = seq 0 (length (heap s0)) ->
                   run evs s0 = Some s -> generated (trace s) = seq 0 (length (heap s))).
  { clear. induction evs as [|e evs IH]; intros s0 Hg Hrun.
    - cbn in Hrun. apply Some_eq_inv in Hrun. subst. exact Hg.
    - cbn [run] in Hrun. destruct (step e s0) as [s1|] eqn:Hstep; [|discriminate].
      exact (IH s1 (generated_step s0 e s1 Hstep Hg) Hrun). }
  exact (Hgen evs init eq_refl Hrun).
Qed.

(** A run for X8: one photo, one call. *)
Lemma every_photo_analysed_once_witness :
  reachable spoken /\ generated (trace spoken) = [0%nat].
Proof.
  assert (H : reachable spoken).
  { exists (snapshot ++ [EvSettle 3%nat (Resolved VOther) 5;
                         EvSettle 4%nat (Resolved VOther) 9]). by_run. }
  split; [exact H|]. rewrite (every_photo_analysed_once spoken H). by_run.
Defined.

Lemma held_in_insert (m : gmap nat Task) (i : nat) (k : Task) :
  m !! i = None ->
  held_in (<[i := k]> m) = if holds_capture k then S (held_in m) else held_in m.
Proof.
  intros Hnone. unfold held_in. destruct (holds_capture k) eqn:Hk.
  - rewrite map_filter_insert_True by exact Hk.
    apply map_size_insert_None. apply map_lookup_filter_None. left. exact Hnone.
  - rewrite map_filter_insert_not'; [reflexivity| |].
    + cbn. congruence.
    + intros y Hy. rewrite Hnone in Hy. discriminate Hy.
Qed.

Lemma held_in_delete (m : gmap nat Task) (i : nat) (k : Task) :
  m !! i = Some k ->
  held_in m = if holds_capture k then S (held_in (delete i m)) else held_in (delete i m).
Proof.
  intros Hsome. unfold held_in. destruct (holds_capture k) eqn:Hk.
  - rewrite map_filter_delete.
    assert (Hin : filter (fun kv : nat * Task => holds_capture kv.2 = true) m !! i = Some k)
      by (apply map_lookup_filter_Some; split; [exact Hsome | exact Hk]).
    pose proof (map_size_delete_Some i _ (ex_intro _ k Hin)) as Hsz.
    rewrite Hsz.
    assert (Hpos : size (filter (fun kv : nat * Task => holds_capture kv.2 = true) m) <> 0%nat).
    { intros Hz. apply map_size_empty_inv in Hz. rewrite Hz, lookup_empty in Hin. discriminate. }
    lia.
  - rewrite map_filter_delete_not; [reflexivity|]. intros y Hy. rewrite Hsome in Hy.
    apply Some_eq_inv in Hy. subst y. cbn. congruence.
Qed.

Lemma captures_snoc (l : list Action) (a : Action) :
  captures (l ++ [a]) = (captures l + if is_capture a then 1 else 0)%nat.
Proof.
  unfold captures. rewrite filter_app, length_app. f_equal.
  destruct a; reflexivity.
Qed.

Lemma capture_accounting_step (s : State) (e : Event) (s' : State) :
  task_inv s -> step e s = Some s' ->
  (length (heap s) + held_in (pending s) <= captures (trace s))%nat ->
  (length (heap s') + held_in (pending s') <= captures (trace s'))%nat.
Proof.
  intros [Hlt _] H Hacc.
  assert (Hfresh : forall tid, (delete tid (pending s)) !! nextTask s = None).
  { intros tid. apply lookup_delete_None. right.
    destruct (pending s !! nextTask s) as [k|] eqn:Hk; [|reflexivity].
    specialize (Hlt _ _ Hk). lia. }
  assert (Hfresh0 : pending s !! nextTask s = None).
  { destruct (pending s !! nextTask s) as [k|] eqn:Hk; [|reflexivity].
    specialize (Hlt _ _ Hk). lia. }
  step_inv H; try rewrite (held_in_delete _ _ _ Hk) in Hacc;
    destruct s; run_callbacks; cbn [pending nextTask] in *.
  all: rewrite ?captures_snoc, ?length_app, ?length_alter; cbn [is_capture length].
  all: rewrite ?held_in_insert by first [apply Hfresh | exact Hfresh0].
  all: cbn [holds_capture] in *; lia.
Qed.

(** X9. In every reachable state the number of photo objects plus the
    number of captures still under way (requested, or taken and waiting
    for the confirmation sound) is at most the number of [requestPhoto]
    calls issued: no photo is stored without a capture request of its
    own. *)
Theorem photos_come_from_captures (s : State) :
  reachable s ->
  (length (heap s) + held_in (pending s) <= captures (trace s))%nat.
Proof.
  intros [evs Hrun].
  assert (Hgen : forall evs s0, task_inv s0 ->
                   (length (heap s0) + held_in (pending s0) <= captures (trace s0))%nat ->
                   run evs s0 = Some s ->
                   (length (heap s) + held_in (pending s) <= captures (trace s))%nat).
  { clear. induction evs as [|e evs IH]; intros s0 Hinv Hacc Hrun.
    - cbn in Hrun. apply Some_eq_inv in Hrun. subst. exact Hacc.
    - cbn [run] in Hrun. destruct (step e s0) as [s1|] eqn:Hstep; [|discriminate].
      exact (IH s1 (task_inv_step s0 e s1 Hinv Hstep)
               (capture_accounting_step s0 e s1 Hinv Hstep Hacc) Hrun). }
  apply (Hgen evs init task_inv_init); [|exact Hrun].
  cbv [init heap pending trace held_in captures]. rewrite map_filter_empty, map_size_empty.
  cbn. lia.
Qed.

(** A run for X9: two captures requested, none completed. *)
Lemma photos_come_from_captures_witness :
  reachable overlapping /\
  (length (heap overlapping) + held_in (pending overlapping) <=
   captures (trace overlapping))%nat.
Proof.
  assert (H : reachable overlapping).
  { exists (arming ++ [EvTick 7%nat "alice" 1; EvTick 7%nat "alice" 30002]). by_run. }
  split; [exact H|]. exact (photos_come_from_captures overlapping H).
Defined.

(** ** The webview routes *)

Lemma find_photo_app (rid : string) (l1 l2 : list StoredPhoto.t) :
  find_photo rid (l1 ++ l2) =
    match find_photo rid l1 with
    | Some p => Some p
    | None => find_photo rid l2
    end.
Proof.
  unfold find_photo. induction l1 as [|p l1 IH]; [reflexivity|].
  cbn. destruct (bool_decide _); [reflexivity | exact IH].
Qed.

Lemma find_photo_Some (rid : string) (l : list StoredPhoto.t) (p : StoredPhoto.t) :
  find_photo rid l = Some p -> p ∈ l /\ StoredPhoto.requestId p = rid.
Proof.
  intros H. apply find_some in H as [Hin Hrid].
  split; [apply list_elem_of_In; exact Hin | exact (bool_decide_eq_true_1 _ Hrid)].
Qed.

Lemma data_requestId (p p' : StoredPhoto.t) :
  StoredPhoto.data p' = StoredPhoto.data p ->
  StoredPhoto.requestId p' = StoredPhoto.requestId p /\
  StoredPhoto.buffer p' = StoredPhoto.buffer p /\
  StoredPhoto.mimeType p' = StoredPhoto.mimeType p /\
  StoredPhoto.userId p' = StoredPhoto.userId p.
Proof. unfold StoredPhoto.data. intros H. injection H as -> -> _ -> -> _ _. auto. Qed.

Lemma find_photo_later (rid : string) (l l' news : list StoredPhoto.t) (p : StoredPhoto.t) :
  Forall2 later l l' -> find_photo rid l = Some p ->
  exists p', find_photo rid (l' ++ news) = Some p' /\ later p p'.
Proof.
  intros Hall. induction Hall as [|q q' l l' Hq _ IH]; intros Hfind; [discriminate|].
  unfold find_photo in *. cbn in *.
  destruct (data_requestId q q' (proj1 Hq)) as (Hrid & _).
  rewrite Hrid. destruct (bool_decide (StoredPhoto.requestId q = rid)).
  - apply Some_eq_inv in Hfind. subst q. exists q'. split; [reflexivity | exact Hq].
  - exact (IH Hfind).
Qed.

Lemma heap_later (evs : list Event) (s s' : State) (ref : Ref) (p : StoredPhoto.t) :
  analysis_inv s -> run evs s = Some s' -> heap s !! ref = Some p ->
  exists p', heap s' !! ref = Some p' /\ later p p'.
Proof.
  intros Hinv Hrun Hp.
  destruct (run_heap_data evs s s' ref p Hrun Hp) as (p' & Hp' & Hdata).
  exists p'. split; [exact Hp'|]. split; [exact Hdata|].
  intros a Ha.
  destruct (run_analysis_stable evs s s' ref p a Hinv Hrun Hp Ha) as (p'' & Hp'' & Ha'').
  congruence.
Qed.

(** Over a run a user's array keeps its objects, each in a later state,
    and grows at the end. *)
Lemma run_stored (evs : list Event) (s s' : State) (user : string) :
  reachable s -> run evs s = Some s' ->
  exists olds news,
    stored s' user = olds ++ news /\ Forall2 later (stored s user) olds.
Proof.
  intros Hreach Hrun.
  pose proof (reachable_store_inv s Hreach) as (Hown & _).
  pose proof (reachable_analysis_inv s Hreach) as Hinv.
  destruct (run_userPhotos evs s s' user Hrun) as [tail Htail].
  exists (objects (heap s') (userPhotos s user)), (objects (heap s') tail).
  split.
  - unfold stored, objects. rewrite Htail. apply omap_app.
  - unfold stored. pose proof (owners_valid (heap s) user) as Hall.
    rewrite <- Hown in Hall. clear Htail.
    induction Hall as [|l refs Hl _ IH]; [constructor|].
    destruct (lookup_lt_is_Some_2 _ _ Hl) as [p Hp].
    destruct (heap_later evs s s' l p Hinv Hrun Hp) as (p' & Hp' & Hlater).
    unfold objects. cbn. rewrite Hp, Hp'. cbn. constructor; [exact Hlater | exact IH].
Qed.

(** X10. Once [/api/photo/:requestId] or [/api/analysis/:requestId] has
    answered 200 for a user, it gives the same answer in every later
    state: photo data never changes, an analysis stays, and [find] keeps
    returning the first photo with that id even when later photos carry
    the same id. *)
Theorem photo_and_analysis_responses_are_final
    (s : State) (evs : list Event) (s' : State)
    (authUserId : option string) (requestId : string) (b : Body) :
  reachable s -> run evs s = Some s' ->
  (api_photo s authUserId requestId = json 200 b ->
   api_photo s' authUserId requestId = json 200 b) /\
  (api_analysis s authUserId requestId = json 200 b ->
   api_analysis s' authUserId requestId = json 200 b).
Proof.
  intros Hreach Hrun.
  unfold api_photo, api_analysis.
  destruct (js_truthy authUserId); cbn [negb]; [|split; discriminate].
  set (user := default "" authUserId).
  destruct (run_stored evs s s' user Hreach Hrun) as (olds & news & Hst & Hall).
  rewrite Hst.
  destruct (stored s user) as [|q qs] eqn:Hq; [split; discriminate|].
  rewrite <- Hq in *. 
  assert (Hnonempty : forall rid p', find_photo rid (olds ++ news) = Some p' ->
            forall (X Y : Response),
            match olds ++ news with [] => X | _ :: _ => Y end = Y).
  { intros rid p' Hf X Y. destruct (olds ++ news); [discriminate Hf | reflexivity]. }
  split; intros H.
  - rewrite Hq in H. rewrite <- Hq in H.
    destruct (find_photo requestId (stored s user)) as [p|] eqn:Hfind; [|discriminate].
    destruct (find_photo_later requestId _ _ news p Hall Hfind) as (p' & Hfind' & Hd & _).
    rewrite (Hnonempty _ _ Hfind'), Hfind'.
    destruct (data_requestId p p' Hd) as (_ & -> & -> & _). exact H.
  - rewrite Hq in H. rewrite <- Hq in H.
    destruct (find_photo requestId (stored s user)) as [p|] eqn:Hfind; [|discriminate].
    destruct (find_photo_later requestId _ _ news p Hall Hfind) as (p' & Hfind' & _ & Hkeep).
    rewrite (Hnonempty _ _ Hfind'), Hfind'.
    destruct (StoredPhoto.geminiAnalysis p) as [a|] eqn:Ha; [|discriminate].
    rewrite (Hkeep a eq_refl). exact H.
Qed.

(** A run for X10: the analysis served before the speech is served
    after it. *)
Lemma photo_and_analysis_responses_are_final_witness :
  reachable analysed /\
  api_analysis analysed (Some "alice") "req-1" = json 200 (JAnalysis "Buy it.") /\
  api_analysis spoken (Some "alice") "req-1" = json 200 (JAnalysis "Buy it.").
Proof.
  assert (H : reachable analysed).
  { exists (snapshot ++ [EvSettle 3%nat (Resolved VOther) 5]). by_run. }
  assert (Hrun : run [EvSettle 4%nat (Resolved VOther) 9] analysed = Some spoken) by by_run.
  assert (Hresp : api_analysis analysed (Some "alice") "req-1" =
                  json 200 (JAnalysis "Buy it.")) by by_run.
  split; [exact H|]. split; [exact Hresp|].
  exact (proj2 (photo_and_analysis_responses_are_final analysed _ spoken (Some "alice")
                  "req-1" (JAnalysis "Buy it.") H Hrun) Hresp).
Defined.

(** X11. Right after a step has cached a photo for a user, the user's
    array is the old one with the new object at the end;
    [/api/latest-photo] reports the new photo's id and timestamp,
    [/api/photos] lists it last with [hasAnalysis] false,
    [/api/gemini-analysis] answers 404 (not yet) whatever analysis the
    photo before had, and [/api/photo/:requestId] serves the new bytes
    unless an older photo of the user has the same id. *)
Theorem cached_photo_is_served
    (s : State) (e : Event) (s' : State) (user : string) (photo : PhotoData.t) :
  reachable s -> step e s = Some s' ->
  cached_by s e = Some (user, photo) -> js_truthy (Some user) = true ->
  stored s' user = stored s user ++ [cachedPhoto photo user] /\
  api_latest_photo s' (Some user) =
    json 200 (JLatestPhoto (PhotoData.requestId photo) (PhotoData.timestamp photo) true) /\
  api_gemini_analysis s' (Some user) =
    json 404 (JError "No Gemini analysis available yet") /\
  api_photos s' (Some user) =
    json 200 (JPhotos (map photoSummary (stored s user) ++
                       [PhotoSummary.mk (PhotoData.requestId photo)
                          (PhotoData.timestamp photo) (PhotoData.mimeType photo) false])) /\
  (find_photo (PhotoData.requestId photo) (stored s user) = None ->
   api_photo s' (Some user) (PhotoData.requestId photo) =
     json 200 (RawPhoto (PhotoData.mimeType photo) "no-cache" (PhotoData.buffer photo))).
Proof.
  intros Hreach Hstep Hc Hu.
  pose proof (reachable_store_inv s Hreach) as (Hown & _).
  pose proof (step_store s e s' Hstep) as Hst. rewrite Hc in Hst.
  destruct Hst as (Hh & Hp & _).
  assert (Hstored : stored s' user = stored s user ++ [cachedPhoto photo user]).
  { unfold stored, userPhotos. rewrite Hh, Hp, lookup_insert_eq. cbn [from_option id].
    rewrite (objects_snoc _ _ _ (cachedPhoto photo user))
      by (apply list_lookup_middle; reflexivity).
    f_equal. apply objects_heap_snoc. fold (userPhotos s user). rewrite Hown.
    apply owners_valid. }
  split; [exact Hstored|].
  unfold api_latest_photo, api_gemini_analysis, api_photos, api_photo.
  rewrite Hu. cbn [negb default from_option id]. rewrite Hstored, last_snoc.
  repeat (split; [reflexivity|]).
  split; [rewrite map_app; reflexivity|].
  intros Hnone. rewrite find_photo_app, Hnone.
  unfold find_photo. cbn. rewrite bool_decide_eq_true_2 by reflexivity.
  destruct (stored s user); reflexivity.
Qed.

(** A run for X11: Alice's streamed photo is served once cached. *)
Lemma cached_photo_is_served_witness :
  reachable confirming /\
  step (EvSettle 1%nat (Resolved VOther) 5) confirming = Some confirmed /\
  api_latest_photo confirmed (Some "alice") = json 200 (JLatestPhoto "req-1" 2 true) /\
  api_photo confirmed (Some "alice") "req-1" =
    json 200 (RawPhoto "image/jpeg" "no-cache" []).
Proof.
  assert (H : reachable confirming).
  { exists (arming ++ [EvTick 7%nat "alice" 1;
                       EvSettle 0%nat (Resolved (VPhoto sample_photo)) 2]). by_run. }
  assert (Hstep : step (EvSettle 1%nat (Resolved VOther) 5) confirming = Some confirmed)
    by by_run.
  split; [exact H|]. split; [exact Hstep|].
  destruct (cached_photo_is_served confirming _ confirmed "alice" sample_photo H Hstep)
    as (_ & Hlatest & _ & _ & Hphoto); [by_run | reflexivity|].
  split; [exact Hlatest|]. apply Hphoto. by_run.
Defined.

(** X12. Without a user id, or with the empty string as user id, every
    route answers 401 whatever the state. With a user id, in every
    reachable state [/api/photos] lists exactly the photo objects of that
    user, and a photo or an analysis served by id belongs to an object of
    that user with that id; a served analysis is never empty. *)
Theorem routes_serve_only_own_photos
    (s : State) (authUserId : option string) (requestId : string) :
  (js_truthy authUserId = false ->
   api_latest_photo s authUserId = json 401 (JError "Not authenticated") /\
   api_photo s authUserId requestId = json 401 (JError "Not authenticated") /\
   api_gemini_analysis s authUserId = json 401 (JError "Not authenticated") /\
   api_photos s authUserId = json 401 (JError "Not authenticated") /\
   api_analysis s authUserId requestId = json 401 (JError "Not authenticated") /\
   api_speak_analysis s authUserId = inl (json 401 (JError "Not authenticated")) /\
   api_test_audio s authUserId = inl (json 401 (JError "Not authenticated"))) /\
  (reachable s -> forall user, authUserId = Some user -> js_truthy authUserId = true ->
   api_photos s authUserId =
     json 200 (JPhotos (map photoSummary
                          (filter (fun p => StoredPhoto.userId p = user) (heap s)))) /\
   (forall c cc buf,
      api_photo s authUserId requestId = json 200 (RawPhoto c cc buf) ->
      exists p, p ∈ heap s /\ StoredPhoto.userId p = user /\
        StoredPhoto.requestId p = requestId /\
        StoredPhoto.mimeType p = c /\ StoredPhoto.buffer p = buf) /\
   (forall t,
      api_analysis s authUserId requestId = json 200 (JAnalysis t) ->
      exists p, p ∈ heap s /\ StoredPhoto.userId p = user /\
        StoredPhoto.requestId p = requestId /\
        StoredPhoto.geminiAnalysis p = Some t /\ t <> "")).
Proof.
  split.
  - intros Hu. unfold api_latest_photo, api_photo, api_gemini_analysis, api_photos,
      api_analysis, api_speak_analysis, api_test_audio. rewrite Hu. repeat split.
  - intros Hreach user -> Hu.
    pose proof (stored_owned s user (reachable_store_inv s Hreach)) as Hst.
    unfold api_photos, api_photo, api_analysis. rewrite Hu.
    cbn [negb default from_option id]. rewrite Hst.
    set (mine := filter (fun p => StoredPhoto.userId p = user) (heap s)).
    assert (Hmine : forall p, p ∈ mine -> p ∈ heap s /\ StoredPhoto.userId p = user).
    { intros p Hin. apply list_elem_of_filter in Hin. tauto. }
    split; [reflexivity|]. split.
    + intros c cc buf H. destruct mine as [|q qs] eqn:Hq; [discriminate|]. rewrite <- Hq in *.
      destruct (find_photo requestId mine) as [p|] eqn:Hfind; [|discriminate].
      apply find_photo_Some in Hfind as [Hin Hrid].
      destruct (Hmine p Hin) as [Hh Hpu].
      exists p. unfold json in H. injection H as <- _ <-. auto.
    + intros t H. destruct mine as [|q qs] eqn:Hq; [discriminate|]. rewrite <- Hq in *.
      destruct (find_photo requestId mine) as [p|] eqn:Hfind; [|discriminate].
      apply find_photo_Some in Hfind as [Hin Hrid].
      destruct (Hmine p Hin) as [Hh Hpu].
      exists p. destruct (StoredPhoto.geminiAnalysis p) as [[|c a]|]; try discriminate.
      cbn in H. unfold json in H. injection H as <-. repeat split; auto; discriminate.
Qed.

(** A run for X12: the empty user id is not authenticated. *)
Lemma routes_serve_only_own_photos_witness :
  js_truthy (Some "") = false /\
  api_photos spoken (Some "") = json 401 (JError "Not authenticated") /\
  api_photo spoken (Some "") "req-1" = json 401 (JError "Not authenticated").
Proof.
  split; [reflexivity|].
  destruct (proj1 (routes_serve_only_own_photos spoken (Some "") "req-1") eq_refl)
    as (_ & Hphoto & _ & Hphotos & _).
  split; [exact Hphotos | exact Hphoto].
Defined.

(** X13. [/api/speak-analysis] hands to [speakAnalysis] exactly the text
    that [/api/gemini-analysis] serves, and answers with an error exactly
    when that route does; the [hasAnalysis] flag of the last entry of
    [/api/photos] is true exactly when [/api/gemini-analysis] answers
    200. *)
Theorem analysis_routes_agree (s : State) (authUserId : option string) (t : string) :
  (api_speak_analysis s authUserId = inr t <->
   api_gemini_analysis s authUserId = json 200 (JAnalysis t)) /\
  (forall l, api_photos s authUserId = json 200 (JPhotos l) ->
     (PhotoSummary.hasAnalysis <$> last l = Some true <->
      exists t', api_gemini_analysis s authUserId = json 200 (JAnalysis t'))).
Proof.
  unfold api_speak_analysis, api_gemini_analysis, api_photos.
  destruct (js_truthy authUserId); cbn [negb].
  2: { split; [split; discriminate|]. intros l H. discriminate H. }
  set (l0 := stored s (default "" authUserId)). split.
  - destruct (last l0) as [p|]; [|split; discriminate].
    destruct (js_truthy (StoredPhoto.geminiAnalysis p)); cbn [negb].
    + unfold json. split; intros H; injection H as ->; reflexivity.
    + split; discriminate.
  - intros l H. unfold json in H. injection H as <-. rewrite fmap_last.
    destruct (last l0) as [p|]; cbn.
    + destruct (js_truthy (StoredPhoto.geminiAnalysis p)); cbn [negb].
      * split; [eauto | reflexivity].
      * split; [discriminate | intros [t' H]; discriminate H].
    + split; [discriminate | intros [t' H]; discriminate H].
Qed.

(** A run for X13: the text served is the text spoken. *)
Lemma analysis_routes_agree_witness :
  api_gemini_analysis analysed (Some "alice") = json 200 (JAnalysis "Buy it.") /\
  api_speak_analysis analysed (Some "alice") = inr "Buy it.".
Proof.
  assert (H : api_gemini_analysis analysed (Some "alice") = json 200 (JAnalysis "Buy it."))
    by by_run.
  split; [exact H|].
  exact (proj2 (proj1 (analysis_routes_agree analysed (Some "alice") "Buy it.")) H).
Defined.

(** X14. When the model's answer is the empty text, the analysis is
    stored as the empty string and stays so; being falsy, it is reported
    as missing from then on: [hasAnalysis] is false, and the analysis
    routes answer 404 (not yet) for that photo. *)
Theorem empty_analysis_is_reported_missing
    (s : State) (tid : nat) (ref : Ref) (user : string) (v : Value) (now : Z)
    (s' : State) (evs : list Event) (s'' : State) :
  reachable s ->
  pending s !! tid = Some (GeminiResponse ref user (inl "")) ->
  step (EvSettle tid (Resolved v) now) s = Some s' ->
  run evs s' = Some s'' ->
  js_truthy (Some user) = true ->
  exists p, heap s'' !! ref = Some p /\
    StoredPhoto.geminiAnalysis p = Some "" /\
    PhotoSummary.hasAnalysis (photoSummary p) = false /\
    (last (stored s'' user) = Some p ->
     api_gemini_analysis s'' (Some user) =
       json 404 (JError "No Gemini analysis available yet")) /\
    (find_photo (StoredPhoto.requestId p) (stored s'' user) = Some p ->
     api_analysis s'' (Some user) (StoredPhoto.requestId p) =
       json 404 (JError "No analysis available yet")).
Proof.
  intros Hreach Hk Hstep Hrun Hu.
  pose proof (reachable_analysis_inv s Hreach) as Hinv.
  destruct (proj1 Hinv _ _ _ Hk eq_refl) as (p0 & Hp0 & _).
  assert (Hp1 : exists p1, heap s' !! ref = Some p1 /\ StoredPhoto.geminiAnalysis p1 = Some "").
  { cbn [step] in Hstep. rewrite Hk in Hstep. cbn [resume] in Hstep.
    apply Some_eq_inv in Hstep. subst s'. destruct s. run_callbacks. cbn [heap] in Hp0.
    rewrite list_lookup_alter_eq, Hp0. eexists. split; reflexivity. }
  destruct Hp1 as (p1 & Hp1 & Ha1).
  destruct (run_analysis_stable evs s' s'' ref p1 "" (analysis_inv_step _ _ _ Hinv Hstep)
              Hrun Hp1 Ha1) as (p & Hp & Ha).
  exists p. split; [exact Hp|]. split; [exact Ha|].
  split; [unfold photoSummary; cbn; rewrite Ha; reflexivity|].
  unfold api_gemini_analysis, api_analysis. rewrite Hu. cbn [negb default from_option id].
  split.
  - intros ->. rewrite Ha. reflexivity.
  - intros Hf. rewrite Hf, Ha. destruct (stored s'' user); [discriminate Hf | reflexivity].
Qed.

(** A run for X14: the empty answer to Alice's photo. *)
Lemma empty_analysis_is_reported_missing_witness :
  reachable blank_answered /\
  pending blank_answered !! 3%nat = Some (GeminiResponse 0%nat "alice" (inl "")) /\
  exists p, heap blank_stored !! 0%nat = Some p /\
    StoredPhoto.geminiAnalysis p = Some "" /\
    PhotoSummary.hasAnalysis (photoSummary p) = false.
Proof.
  assert (H : reachable blank_answered) by (exists blank; by_run).
  assert (Hk : pending blank_answered !! 3%nat = Some (GeminiResponse 0%nat "alice" (inl "")))
    by by_run.
  split; [exact H|]. split; [exact Hk|].
  destruct (empty_analysis_is_reported_missing blank_answered 3%nat 0%nat "alice" VOther 5
              blank_stored [] blank_stored H Hk)
    as (p & Hp & Ha & Hs & _); [by_run | reflexivity | reflexivity|].
  exists p. auto.
Defined.

(** ** The two revisions *)

(** X15. The two revisions store the same. Where the earlier revision
    ([Part000]) caches the photo in the step in which the capture call
    resolves, the later one first plays the confirmation sound and leaves
    the store alone, and once the sound has settled, either way, its
    [photos], photo objects, latest timestamps, streaming flags and
    sessions equal those of the earlier revision. On the button path
    [nextPhotoTime] is equal too; on the tick path the later revision
    holds the time the sound settled, the earlier the time the capture
    resolved. *)
Theorem confirmation_sound_keeps_the_store
    (s : State) (tid : nat) (session : Session) (user : string)
    (photo : PhotoData.t) (r : Settled) (now now' : Z) :
  pending s !! tid = Some (ButtonCamera session user) \/
  pending s !! tid = Some (StreamCamera session user) ->
  exists s1 s2 s0,
    step (EvSettle tid (Resolved (VPhoto photo)) now) s = Some s1 /\
    photos s1 = photos s /\ heap s1 = heap s /\
    step (EvSettle (nextTask s) r now') s1 = Some s2 /\
    Part000.step (EvSettle tid (Resolved (VPhoto photo)) now) s = Some s0 /\
    photos s2 = photos s0 /\ heap s2 = heap s0 /\
    latestPhotoTimestamp s2 = latestPhotoTimestamp s0 /\
    isStreamingPhotos s2 = isStreamingPhotos s0 /\
    sessions s2 = sessions s0 /\
    (pending s !! tid = Some (ButtonCamera session user) ->
     nextPhotoTime s2 = nextPhotoTime s0) /\
    (pending s !! tid = Some (StreamCamera session user) ->
     nextPhotoTime s2 !! user = Some now' /\ nextPhotoTime s0 !! user = Some now).
Proof.
  intros Hk.
  destruct Hk as [Hk|Hk]; cbn [step Part000.step]; rewrite Hk; cbn [resume Part000.resume].
  - eexists; eexists; eexists; split; [reflexivity|].
    split; [destruct s; reflexivity|]; split; [destruct s; reflexivity|].
    assert (Hk1 : pending (exec (unpark tid;;
                     speak session "Photo taken" (ButtonShutter session user photo)) s)
                  !! nextTask s = Some (ButtonShutter session user photo))
      by (destruct s; run_callbacks; apply lookup_insert_eq).
    rewrite Hk1; cbn [resume].
    split; [reflexivity|]; split; [reflexivity|].
    destruct s, r; run_callbacks; do 5 (split; [reflexivity|]);
      (split; [reflexivity | intros Hc; discriminate Hc]).
  - eexists; eexists; eexists; split; [reflexivity|].
    split; [destruct s; reflexivity|]; split; [destruct s; reflexivity|].
    assert (Hk1 : pending (exec (unpark tid;;
                     speak session "Photo taken" (StreamShutter session user photo)) s)
                  !! nextTask s = Some (StreamShutter session user photo))
      by (destruct s; run_callbacks; apply lookup_insert_eq).
    rewrite Hk1; cbn [resume].
    split; [reflexivity|]; split; [reflexivity|].
    destruct s, r; run_callbacks; do 5 (split; [reflexivity|]);
      (split; [intros Hc; discriminate Hc|]);
      intros _; rewrite !lookup_insert_eq; split; reflexivity.
Qed.

(** A run for X15: Alice's short press, the sound failing. *)
Lemma confirmation_sound_keeps_the_store_witness :
  pending pressing !! 0%nat = Some (ButtonCamera 7%nat "alice") /\
  exists s2 s0,
    Part000.step (EvSettle 0%nat (Resolved (VPhoto sample_photo)) 2) pressing = Some s0 /\
    heap s2 = heap s0 /\ photos s2 = photos s0 /\
    heap s0 = [cachedPhoto sample_photo "alice"].
Proof.
  assert (Hk : pending pressing !! 0%nat = Some (ButtonCamera 7%nat "alice")) by by_run.
  split; [exact Hk|].
  destruct (confirmation_sound_keeps_the_store pressing 0%nat 7%nat "alice" sample_photo
              (Rejected "speaker busy") 2 3 (or_introl Hk))
    as (s1 & s2 & s0 & _ & _ & _ & _ & Hs0 & Hp & Hh & _).
  exists s2, s0. split; [exact Hs0|]. split; [exact Hh|]. split; [exact Hp|].
  assert (Heq : Part000.step (EvSettle 0%nat (Resolved (VPhoto sample_photo)) 2) pressing =
                Some (exec (unpark 0%nat ;; cachePhoto sample_photo "alice") pressing))
    by by_run.
  rewrite Heq in Hs0. apply Some_eq_inv in Hs0. subst s0. by_run.
Defined.

(** ** The audio URL *)

Lemma append_cons (c : Ascii.ascii) (a b : string) : String c a +:+ b = String c (a +:+ b).
Proof. reflexivity. Qed.

Lemma length_append (a b : string) :
  String.length (a +:+ b) = (String.length a + String.length b)%nat.
Proof.
  induction a as [|c a IH]; [reflexivity|].
  rewrite append_cons. cbn. f_equal. exact IH.
Qed.

Lemma substring_tail (a b : string) :
  String.substring (String.length a) (String.length b) (a +:+ b) = b.
Proof.
  induction a as [|c a IH]; [|rewrite append_cons; cbn; exact IH].
  change ("" +:+ b) with b. cbn [String.length].
  induction b as [|c b IH]; cbn; [reflexivity | f_equal; exact IH].
Qed.

Lemma substring_head (a b : string) :
  String.substring 0 (String.length a) (a +:+ b) = a.
Proof.
  induction a as [|c a IH]; [destruct b; reflexivity|].
  rewrite append_cons. cbn. f_equal. exact IH.
Qed.

Lemma endsWith_slash_append (b : string) : endsWith (b +:+ "/") "/" = true.
Proof.
  unfold endsWith. rewrite length_append. cbn [String.length].
  replace (String.length b + 1 - 1)%nat with (String.length b) by lia.
  pose proof (substring_tail b "/") as Ht. cbn [String.length] in Ht. rewrite Ht.
  apply andb_true_intro. split; [apply Nat.leb_le; lia | reflexivity].
Qed.

(** X16. [audioUrl] removes one trailing slash of the base URL, if there
    is one, before it appends ["/audio/"] and the file name: a base with
    one trailing slash and the same base without it give the same URL; of
    two trailing slashes one stays. *)
Theorem audio_url_strips_one_slash (baseUrl audioFileName : string) :
  audioUrl (baseUrl +:+ "/") audioFileName = baseUrl +:+ "/audio/" +:+ audioFileName /\
  (endsWith baseUrl "/" = false ->
   audioUrl baseUrl audioFileName = baseUrl +:+ "/audio/" +:+ audioFileName).
Proof.
  split.
  - unfold audioUrl, cleanBaseUrl. rewrite endsWith_slash_append.
    unfold slice_0_minus1. rewrite length_append. cbn [String.length].
    replace (String.length baseUrl + 1 - 1)%nat with (String.length baseUrl) by lia.
    rewrite substring_head. reflexivity.
  - intros Hno. unfold audioUrl, cleanBaseUrl. rewrite Hno. reflexivity.
Qed.

(** A run for X16: the localhost default with and without the slash. *)
Lemma audio_url_strips_one_slash_witness :
  endsWith "http://localhost:3000" "/" = false /\
  audioUrl "http://localhost:3000/" "a.mp3" = "http://localhost:3000/audio/a.mp3" /\
  audioUrl "http://localhost:3000" "a.mp3" = "http://localhost:3000/audio/a.mp3".
Proof.
  split; [reflexivity|]. split.
  - exact (proj1 (audio_url_strips_one_slash "http://localhost:3000" "a.mp3")).
  - exact (proj2 (audio_url_strips_one_slash "http://localhost:3000" "a.mp3") eq_refl).
Defined.
